(** * RedDiss: the audio core (beat synchroniser, audio master), the sanitizer
    and the endpoint

    Shallow embedding of [src/agents/beat_sync.py], [src/agents/mastering.py],
    [src/agents/sanitizer.py] and [generate_diss] of [src/main.py].

    Numeric model.  A sample is an IEEE-style value: a finite number, one of
    the two infinities, or NaN.  Finite values are exact rationals, so the
    arithmetic on samples is IEEE arithmetic with the rounding step left out;
    the special values follow numpy (division by zero gives an infinity or
    NaN and a warning, never an exception).  Signed zeros are not
    distinguished.  Where binary64 rounding decides an integer the
    computation is that of binary64: the times of beats and onsets, their
    differences, the product with the sample rate and its truncation in
    [_align_to_grid] are primitive floats, and so are the delay length
    [int(0.02 * 44100)] and the special values the model relies on
    ([special_values_binary64]).

    Exceptions are values: a fallible step returns [Ok v] or [Raise e].
    librosa, soundfile, aiohttp and the file system are outside the
    repository; they are fields of the records [Librosa] and [World]. *)

From Stdlib Require Import QArith Qabs Qminmax ZArith Bool Ascii String List Lia Lqa.
From Stdlib Require Import Sorting.Sorted Sorting.Permutation.
From Stdlib Require Import PrimFloat FloatOps SpecFloat.
Import ListNotations.

(* ------------------------------------------------------------------ *)
(** ** Python: exceptions, [int], [min] *)

Module Py.

Inductive exn : Type :=
| ValueError (msg : string)
| Exception (msg : string).

Inductive result (A : Type) : Type :=
| Ok (a : A)
| Raise (e : exn).
Arguments Ok {A} a.
Arguments Raise {A} e.

Definition bind {A B} (m : result A) (k : A -> result B) : result B :=
  match m with
  | Ok a => k a
  | Raise e => Raise e
  end.

Definition raises {A} (m : result A) : Prop := exists e, m = Raise e.

End Py.

Import Py.

Declare Scope py_scope.
Delimit Scope py_scope with py.
Notation "x <- m ;; k" := (Py.bind m (fun x => k))
  (at level 61, m at next level, right associativity) : py_scope.
Notation "' p <- m ;; k" := (Py.bind m (fun p => k))
  (at level 61, p pattern, m at next level, right associativity) : py_scope.
Open Scope py_scope.

(* ------------------------------------------------------------------ *)
(** ** Sample values *)

Module Fl.

Inductive fval : Type :=
| Fin (q : Q)
| PInf
| NInf
| NaN.

Definition Qltb (x y : Q) : bool := negb (Qle_bool y x).

Definition is_zero (q : Q) : bool := Qeq_bool q 0.

(** Sign of a finite number as [-1], [0] or [1]. *)
Definition Qsgn (q : Q) : Q := inject_Z (Z.sgn (Qnum q)).

Definition inf_of_sign (q : Q) : fval :=
  if Qltb 0 q then PInf else if Qltb q 0 then NInf else NaN.

Definition neg (a : fval) : fval :=
  match a with
  | Fin q => Fin (- q)
  | PInf => NInf
  | NInf => PInf
  | NaN => NaN
  end.

Definition add (a b : fval) : fval :=
  match a, b with
  | NaN, _ | _, NaN => NaN
  | Fin x, Fin y => Fin (x + y)
  | PInf, NInf | NInf, PInf => NaN
  | PInf, _ | _, PInf => PInf
  | NInf, _ | _, NInf => NInf
  end.

Definition sub (a b : fval) : fval := add a (neg b).

Definition mul (a b : fval) : fval :=
  match a, b with
  | NaN, _ | _, NaN => NaN
  | Fin x, Fin y => Fin (x * y)
  | Fin x, PInf | PInf, Fin x => inf_of_sign x
  | Fin x, NInf | NInf, Fin x => inf_of_sign (- x)
  | PInf, PInf | NInf, NInf => PInf
  | PInf, NInf | NInf, PInf => NaN
  end.

(** numpy division: a zero divisor gives an infinity (or NaN for [0/0])
    with a RuntimeWarning; nothing is raised. *)
Definition div (a b : fval) : fval :=
  match a, b with
  | NaN, _ | _, NaN => NaN
  | Fin x, Fin y => if is_zero y then inf_of_sign x else Fin (x / y)
  | Fin _, PInf | Fin _, NInf => Fin 0
  | PInf, Fin y => if Qltb y 0 then NInf else PInf
  | NInf, Fin y => if Qltb y 0 then PInf else NInf
  | PInf, _ | NInf, _ => NaN
  end.

Definition abs (a : fval) : fval :=
  match a with
  | Fin q => Fin (Qabs q)
  | PInf | NInf => PInf
  | NaN => NaN
  end.

(** [np.sign] *)
Definition sign (a : fval) : fval :=
  match a with
  | Fin q => Fin (Qsgn q)
  | PInf => Fin 1
  | NInf => Fin (-1)
  | NaN => NaN
  end.

(** [a < b]; every comparison with NaN is false. *)
Definition ltb (a b : fval) : bool :=
  match a, b with
  | NaN, _ | _, NaN => false
  | Fin x, Fin y => Qltb x y
  | NInf, NInf | PInf, _ => false
  | NInf, _ => true
  | Fin _, PInf => true
  | Fin _, NInf => false
  end.

Definition gtb (a b : fval) : bool := ltb b a.

Definition is_nan (a : fval) : bool :=
  match a with NaN => true | _ => false end.

(** finite and not negative, as an RMS energy is *)
Definition nonneg_finite (a : fval) : Prop :=
  match a with
  | Fin q => 0 <= q
  | _ => False
  end.

(** a gain that attenuates or passes: finite, in (0, 1] *)
Definition unit_gain (a : fval) : Prop :=
  match a with
  | Fin g => 0 < g /\ g <= 1
  | _ => False
  end.

(** The finite values of magnitude at most [b]. *)
Definition bounded (b : Q) (a : fval) : Prop :=
  match a with
  | Fin q => Qabs q <= b
  | _ => False
  end.

(** Equality of sample values up to the representation of fractions. *)
Definition eqv (a b : fval) : Prop :=
  match a, b with
  | Fin x, Fin y => x == y
  | PInf, PInf | NInf, NInf | NaN, NaN => True
  | _, _ => False
  end.

Definition zero : fval := Fin 0.
Definition one : fval := Fin 1.

(** a finite waveform, as a decoded audio file gives it *)
Definition wave (l : list Q) : list fval := map Fin l.

(** binary64 to integer, truncating: [int(x)] on a Python float *)
Definition float_int (f : float) : option Z :=
  match Prim2SF f with
  | S754_zero _ => Some 0%Z
  | S754_finite s m e =>
      let v := (if (0 <=? e) then Z.pos m * 2 ^ e else Z.pos m / 2 ^ (- e))%Z in
      Some (if s then (- v)%Z else v)
  | _ => None
  end.

(** the rational a finite binary64 stands for *)
Definition float_Q (f : float) : option Q :=
  match Prim2SF f with
  | S754_zero _ => Some 0
  | S754_finite s m e =>
      let v := if (0 <=? e)%Z then inject_Z (Z.pos m * 2 ^ e)
               else Z.pos m # Z.to_pos (2 ^ (- e)) in
      Some (if s then - v else v)
  | _ => None
  end.

(** binary64 of a Python int, rounded to nearest even: the conversion
    numpy makes when an int meets a [float64] *)
Definition float_of_int (z : Z) : float :=
  SF2Prim (binary_normalize prec emax z 0 false).

End Fl.

Import Fl.

(** Python's [min(a, b)]: the first argument unless the second is smaller. *)
Definition py_min (a b : fval) : fval := if Fl.ltb b a then b else a.

(** Python's [max] on lengths. *)
Definition py_max_nat (a b : nat) : nat := if Nat.ltb a b then b else a.

(* ------------------------------------------------------------------ *)
(** ** numpy: one-dimensional arrays as lists *)

Module Np.

Definition zeros (n : nat) : list fval := repeat Fl.zero n.
Definition zeros_like {A} (a : list A) : list fval := zeros (length a).

(** an all-zero array *)
Definition silent (a : list fval) : Prop := Forall (fun v => Fl.eqv v Fl.zero) a.

(** a finite array with a sample that is not zero *)
Definition nonsilent (a : list Q) : Prop := Exists (fun x => ~ x == 0) a.

Definition np_abs (a : list fval) : list fval := map Fl.abs a.

(** [np.maximum] on two scalars: NaN wins. *)
Definition fmax (a b : fval) : fval :=
  if Fl.is_nan a then a else if Fl.is_nan b then b
  else if Fl.ltb a b then b else a.

(** [np.max]: a zero-size array has no maximum. *)
Definition np_max (a : list fval) : result fval :=
  match a with
  | [] => Raise (ValueError "zero-size array to reduction operation maximum which has no identity")
  | x :: t => Ok (fold_left fmax t x)
  end.

Definition np_sum (a : list fval) : fval := fold_left Fl.add a Fl.zero.

(** [np.mean]: the sum over the count; an empty array gives [0/0]. *)
Definition np_mean (a : list fval) : fval :=
  Fl.div (np_sum a) (Fin (inject_Z (Z.of_nat (length a)))).

(** [np.pad(a, (0, k))] *)
Definition pad_right (a : list fval) (k : nat) : list fval := a ++ zeros k.

(** elementwise operation on two arrays of one length *)
Definition map2 {A B C} (f : A -> B -> C) (a : list A) (b : list B) : list C :=
  map (fun p => f (fst p) (snd p)) (combine a b).

(** [np.roll(a, shift)] on one axis: element [i] moves to [(i + shift) mod n]. *)
Definition roll {A} (a : list A) (shift : nat) : list A :=
  let n := length a in
  let k := (shift mod (if Nat.eqb n 0 then 1 else n))%nat in
  skipn (n - k) a ++ firstn (n - k) a.

Definition vstack {A} (a b : list A) : list (list A) := [a; b].

(** A slice bound [i] of Python on a sequence of length [n]: a negative
    bound counts from the end, and both are clipped to [0..n]. *)
Definition slice_bound (n : nat) (i : Z) : nat :=
  if (i <? 0)%Z then Z.to_nat (Z.max 0 (Z.of_nat n + i))
  else Nat.min (Z.to_nat i) n.

Definition slice_lo (n : nat) (start : option Z) : nat :=
  match start with Some i => slice_bound n i | None => 0%nat end.

Definition slice_hi (n : nat) (stop : option Z) : nat :=
  match stop with Some i => slice_bound n i | None => n end.

(** [a[start:stop]] *)
Definition getslice {A} (a : list A) (start stop : option Z) : list A :=
  let lo := slice_lo (length a) start in
  let hi := slice_hi (length a) stop in
  firstn (hi - lo) (skipn lo a).

(** [a[start:stop] = v]: the shapes must agree, except that a one-element
    [v] is broadcast over the slice (also over an empty one). *)
Definition setslice {A} (a : list A) (start stop : option Z) (v : list A)
  : result (list A) :=
  let lo := slice_lo (length a) start in
  let hi := slice_hi (length a) stop in
  let len := (hi - lo)%nat in
  if Nat.eqb (length v) len then
    Ok (firstn lo a ++ v ++ skipn (lo + len) a)
  else
    match v with
    | [x] => Ok (firstn lo a ++ repeat x len ++ skipn (lo + len) a)
    | _ => Raise (ValueError "could not broadcast input array")
    end.

(** The scan of [np.argmin] over a [float64] array: an element takes the
    place of the best one unless the best is at most that element, and a
    NaN ends the scan. *)
Fixpoint argmin_from (best_i : nat) (best : float) (i : nat) (l : list float)
  : nat :=
  match l with
  | [] => best_i
  | x :: t =>
      if PrimFloat.is_nan best then best_i
      else if PrimFloat.leb best x then argmin_from best_i best (S i) t
      else argmin_from i x (S i) t
  end.

(** [np.argmin]: the first index of the minimum, or of the first NaN. *)
Definition argmin (l : list float) : result nat :=
  match l with
  | [] => Raise (ValueError "attempt to get argmin of an empty sequence")
  | x :: t => Ok (argmin_from 0 x 1 t)
  end.

(** rows of a two-dimensional array to its columns *)
Fixpoint transpose {A} (rows : list (list A)) : list (list A) :=
  match rows with
  | [] => []
  | [r] => map (fun x => [x]) r
  | r :: rs => map2 cons r (transpose rs)
  end.

End Np.

(* ------------------------------------------------------------------ *)
(** ** The libraries and the outside world *)

Record cplx : Type := Cplx { re : fval; im : fval }.

(** an array as [soundfile.read] returns it: (samples) or (samples, channels) *)
Inductive ndarray : Type :=
| Arr1 (a : list fval)
| Arr2 (rows : list (list fval)).

(** librosa, every call of which may raise, and the two functions of numpy
    that are not rational.  Times are [float64] values, as
    [frames_to_time] returns them. *)
Record Librosa : Type := {
  load : string -> result (list fval * Z);
  beat_track : list fval -> Z -> result (fval * list Z);
  frames_to_time : list Z -> Z -> result (list float);
  time_stretch : list fval -> fval -> result (list fval);
  onset_strength : list fval -> Z -> result (list fval);
  onset_detect : list fval -> Z -> result (list Z);
  rms : list fval -> result (list (list fval));
  stft : list fval -> result (list (list cplx));
  istft : list (list cplx) -> result (list fval);
  np_log10 : fval -> fval;
  np_sqrt : fval -> fval
}.

Record sync_metadata : Type := {
  meta_beat_tempo : fval;
  original_vocal_duration : Q;
  final_duration : Q;
  meta_beat_url : string
}.

Record audio_metrics : Type := {
  peak_db : fval;
  rms_db : fval;
  duration : Q;
  sample_rate : Z
}.

(** network and files *)
Record World : Type := {
  http_get : string -> result (Z * string);
  write_temp_file : string -> string -> result string;
  sf_read : string -> result (ndarray * Z);
  sf_write : string -> ndarray -> Z -> result unit;
  mkdir : string -> result unit;
  dump_sync_metadata : string -> sync_metadata -> result unit;
  dump_audio_metrics : string -> audio_metrics -> result unit
}.

(** [a / b] on Python integers *)
Definition py_truediv (a b : Z) : result Q :=
  if (b =? 0)%Z then Raise (Exception "division by zero")
  else Ok (inject_Z a / inject_Z b).

(* ------------------------------------------------------------------ *)
(** ** [src/agents/beat_sync.py] *)

Module BeatSync.

Import Np.

Section Synchronizer.

Context (lib : Librosa) (w : World).

(** [_download_beat]: any status but 200 raises. *)
Definition _download_beat (url : string) : result string :=
  '(status, body) <- http_get w url ;;
  if (status =? 200)%Z then
    write_temp_file w ".mp3" body
  else
    Raise (Exception "Failed to download beat").

(** [_time_stretch_to_tempo] *)
Definition _time_stretch_to_tempo (audio : list fval) (sr : Z)
           (target_tempo : fval) : result (list fval) :=
  '(original_tempo, _) <- beat_track lib audio sr ;;
  if Fl.gtb original_tempo Fl.zero then
    let stretch_factor := Fl.div original_tempo target_tempo in
    time_stretch lib audio stretch_factor
  else
    Ok audio.

(** [int(x)] on a [float64]: truncation; NaN and the infinities raise
    (ValueError and OverflowError). *)
Definition int_float (x : float) : result Z :=
  match Fl.float_int x with
  | Some z => Ok z
  | None =>
      if PrimFloat.is_nan x
      then Raise (ValueError "cannot convert float NaN to integer")
      else Raise (Exception "cannot convert float infinity to integer")
  end.

(** One turn of the loop of [_align_to_grid]: the nearest beat, the
    offset to it, and the slice assignment into [out_audio].  The
    offset, its product with the sample rate and the comparison are those
    of binary64. *)
Definition shift_onset (audio : list fval) (sr : Z) (beat_times : list float)
           (out_audio : list fval) (onset_time : float) : result (list fval) :=
  i <- argmin (map (fun b => PrimFloat.abs (b - onset_time)) beat_times) ;;
  let nearest_beat := nth i beat_times 0%float in
  let time_diff := (nearest_beat - onset_time)%float in
  if (0 <? time_diff)%float then
    shift_samples <- int_float (time_diff * Fl.float_of_int sr) ;;
    setslice out_audio (Some shift_samples) None
             (getslice audio None (Some (- shift_samples)%Z))
  else
    shift_samples <- int_float (- time_diff * Fl.float_of_int sr) ;;
    setslice out_audio None (Some (- shift_samples)%Z)
             (getslice audio (Some shift_samples) None).

(** [for onset_time in onset_times: ...] *)
Fixpoint align_onsets (audio : list fval) (sr : Z) (beat_times : list float)
         (onset_times : list float) (out_audio : list fval) : result (list fval) :=
  match onset_times with
  | [] => Ok out_audio
  | onset_time :: rest =>
      out' <- shift_onset audio sr beat_times out_audio onset_time ;;
      align_onsets audio sr beat_times rest out'
  end.

(** [_align_to_grid] *)
Definition _align_to_grid (audio : list fval) (sr : Z) (beat_times : list float)
  : result (list fval) :=
  onset_env <- onset_strength lib audio sr ;;
  onset_frames <- onset_detect lib onset_env sr ;;
  onset_times <- frames_to_time lib onset_frames sr ;;
  let out_audio := zeros_like audio in
  align_onsets audio sr beat_times onset_times out_audio.

(** [_mix_audio], with the default [vocals_gain = 0.8] as a parameter *)
Definition _mix_audio_gain (vocals beat : list fval) (vocals_gain : fval)
  : result (list fval) :=
  let max_len := py_max_nat (length vocals) (length beat) in
  let vocals := if Nat.ltb (length vocals) max_len
                then pad_right vocals (max_len - length vocals) else vocals in
  let beat := if Nat.ltb (length beat) max_len
              then pad_right beat (max_len - length beat) else beat in
  let mixed := map2 Fl.add (map (fun v => Fl.mul v vocals_gain) vocals)
                           (map (fun b => Fl.mul b (Fin (6 # 10))) beat) in
  peak <- np_max (np_abs mixed) ;;
  Ok (map (fun m => Fl.div m peak) mixed).

Definition _mix_audio (vocals beat : list fval) : result (list fval) :=
  _mix_audio_gain vocals beat (Fin (8 # 10)).

Definition output_path : string := "data/audio/synced_track.wav".

(** the body of the [try] of [sync_to_beat] *)
Definition sync_body (vocals_path beat_url : string) : result string :=
  '(vocals, vocals_sr) <- load lib vocals_path ;;
  beat_path <- _download_beat beat_url ;;
  '(beat, beat_sr) <- load lib beat_path ;;
  '(beat_tempo, beat_frames) <- beat_track lib beat beat_sr ;;
  beat_times <- frames_to_time lib beat_frames beat_sr ;;
  stretched_vocals <- _time_stretch_to_tempo vocals vocals_sr beat_tempo ;;
  aligned_vocals <- _align_to_grid stretched_vocals vocals_sr beat_times ;;
  mixed_audio <- _mix_audio aligned_vocals beat ;;
  _ <- sf_write w output_path (Arr1 mixed_audio) beat_sr ;;
  d0 <- py_truediv (Z.of_nat (length vocals)) vocals_sr ;;
  d1 <- py_truediv (Z.of_nat (length mixed_audio)) beat_sr ;;
  let metadata := {| meta_beat_tempo := beat_tempo;
                     original_vocal_duration := d0;
                     final_duration := d1;
                     meta_beat_url := beat_url |} in
  _ <- dump_sync_metadata w "data/audio/sync_metadata.json" metadata ;;
  Ok output_path.

(** [sync_to_beat]: [except Exception] returns the vocals path. *)
Definition sync_to_beat (vocals_path beat_url : string) : result string :=
  match sync_body vocals_path beat_url with
  | Ok p => Ok p
  | Raise _ => Ok vocals_path
  end.

End Synchronizer.

(** The summed mix of two finite waveforms before it is normalised:
    [vocals * 0.8 + beat * 0.6] on the zero-padded arrays.  It is the array
    [mixed] of [_mix_audio] ([MixProofs.mixed_wave]). *)
Definition mix_sum (vocals beat : list Q) : list Q :=
  let max_len := Nat.max (length vocals) (length beat) in
  map2 (fun v b => v * (8 # 10) + b * (6 # 10))
       (vocals ++ repeat 0 (max_len - length vocals))
       (beat ++ repeat 0 (max_len - length beat)).

(** The signed offset [time_diff] of an onset to its nearest beat and the
    number [shift_samples] of samples, as [shift_onset] computes them
    ([AlignSteps.shift_onset_unfold]). *)
Definition onset_offset (beat_times : list float) (onset_time : float)
  : result float :=
  i <- argmin (map (fun b => PrimFloat.abs (b - onset_time)) beat_times) ;;
  Ok (nth i beat_times 0 - onset_time)%float.

Definition shift_samples_of (sr : Z) (time_diff : float) : result Z :=
  if (0 <? time_diff)%float then int_float (time_diff * Fl.float_of_int sr)
  else int_float (- time_diff * Fl.float_of_int sr).

(** The segment-wise alignment the specification describes: the segment
    of onset [k] runs from its sample to the sample of the next onset (to the
    end for the last one), and a turn of the loop moves that segment only,
    so it leaves every position outside the moved segment as it was.  For
    comparison with [shift_onset]. *)
Definition spec_segment (n : nat) (onset_samples : list nat) (k : nat) : nat * nat :=
  (nth k onset_samples n, nth (S k) onset_samples n).

Definition in_shifted_segment (seg : nat * nat) (shift : Z) (p : nat) : bool :=
  ((Z.of_nat (fst seg) + shift <=? Z.of_nat p)
   && (Z.of_nat p <? Z.of_nat (snd seg) + shift))%Z.

Definition writes_only_segment (seg : nat * nat) (shift : Z)
           (before after : list fval) : Prop :=
  forall p, in_shifted_segment seg shift p = false ->
            nth p after NaN = nth p before NaN.

End BeatSync.

(* ------------------------------------------------------------------ *)
(** ** [src/agents/mastering.py] *)

Module Mastering.

Import Np.

(** [10 ** (self.target_peak / 20)] with [self.target_peak = -1.0]: the
    binary64 value of [10 ** -0.05], which prints as 0.8912509381337456 and
    is 8027674785745483 / 2^53. *)
#[warnings="-inexact-float"]
Definition target_peak_float : float := 0.8912509381337456%float.

Definition target_peak : Q := 8027674785745483 # 9007199254740992.

Definition ratio : fval := Fin 4.
Definition attack : fval := Fin (3 # 1000).
Definition release : fval := Fin (1 # 10).

(** the gain a sample asks for, before smoothing *)
Definition raw_gain (threshold a : fval) : fval :=
  if Fl.gtb (Fl.abs a) threshold then
    Fl.div (Fl.add threshold (Fl.div (Fl.sub (Fl.abs a) threshold) ratio))
           (Fl.abs a)
  else Fl.one.

(** attack and release against the gain of the sample before ([i > 0]) *)
Definition smooth (prev : option fval) (g : fval) : fval :=
  match prev with
  | None => g
  | Some p =>
      if Fl.ltb g p then Fl.add p (Fl.mul (Fl.sub g p) attack)
      else Fl.add p (Fl.mul (Fl.sub g p) release)
  end.

(** the array [gain] after the loop, from sample [i] on, where [prev] is
    [gain[i-1]] *)
Fixpoint gain_from (threshold : fval) (prev : option fval) (audio : list fval)
  : list fval :=
  match audio with
  | [] => []
  | a :: rest =>
      let g := smooth prev (raw_gain threshold a) in
      g :: gain_from threshold (Some g) rest
  end.

(** the thresholds [np.mean(rms) * 1.5] can take: a finite value that is
    not negative, or NaN for an empty [rms] *)
Definition valid_threshold (t : fval) : Prop :=
  match t with
  | Fin q => 0 <= q
  | NaN => True
  | _ => False
  end.

(** the invariant of the loop on [gain[i-1]] *)
Definition prev_ok (prev : option fval) : Prop :=
  match prev with
  | None => True
  | Some p => Fl.unit_gain p
  end.

(** a gain the ratio of four allows: finite, in [1/4, 1] *)
Definition ratio_gain (g : fval) : Prop :=
  match g with
  | Fin q => 1 # 4 <= q /\ q <= 1
  | _ => False
  end.

(** the array [compressed] after the loop: [audio[i] * gain[i]] *)
Definition compress (threshold : fval) (audio : list fval) : list fval :=
  map2 Fl.mul audio (gain_from threshold None audio).

(** [20 - 60 - 250 - 2000 - 6000 - sr // 2], in the order of the dict *)
Definition bands (sr : Z) : list (string * (Z * Z)) :=
  [ ("sub_bass", (20, 60)); ("bass", (60, 250)); ("low_mids", (250, 2000));
    ("high_mids", (2000, 6000)); ("highs", (6000, sr / 2)) ]%Z%string.

Definition gains (band : string) : Q :=
  if String.eqb band "sub_bass" then 12 # 10
  else if String.eqb band "bass" then 11 # 10
  else if String.eqb band "low_mids" then 9 # 10
  else if String.eqb band "high_mids" then 11 # 10
  else 105 # 100.

(** [librosa.fft_frequencies(sr=sr)] with its default [n_fft = 2048]:
    bin [k] of 1025 lies at [k * sr / 2048] Hz. *)
Definition fft_frequencies (sr : Z) : list Q :=
  map (fun k => inject_Z (Z.of_nat k * sr) / 2048) (seq 0 1025).

(** [(freqs >= low) & (freqs <= high)] at one bin *)
Definition in_band (low high : Z) (f : Q) : bool :=
  Qle_bool (inject_Z low) f && Qle_bool f (inject_Z high).

(** a spectral bin that is zero *)
Definition czero (c : cplx) : Prop :=
  Fl.eqv (re c) Fl.zero /\ Fl.eqv (im c) Fl.zero.

Definition scale (g : Q) (c : cplx) : cplx :=
  {| re := Fl.mul (re c) (Fin g); im := Fl.mul (im c) (Fin g) |}.

(** [D[mask] *= gains[band]] *)
Definition apply_band (freqs : list Q) (D : list (list cplx))
           (band : string * (Z * Z)) : result (list (list cplx)) :=
  let '(name, (low, high)) := band in
  if Nat.eqb (length freqs) (length D) then
    Ok (map2 (fun f row => if in_band low high f
                           then map (scale (gains name)) row else row)
             freqs D)
  else Raise (Exception "boolean index did not match indexed array").

(** What the loop over the bands does to one bin at frequency [f]: the
    gain of every band whose closed interval holds [f], one after the other
    ([EqProofs.apply_bands_rows]). *)
Definition band_step (f : Q) (c : cplx) (band : string * (Z * Z)) : cplx :=
  let '(name, (low, high)) := band in
  if in_band low high f then scale (gains name) c else c.

Definition band_gains (sr : Z) (f : Q) (c : cplx) : cplx :=
  fold_left (band_step f) (bands sr) c.

(** a bin that is one band's gain times the bin it came from *)
Definition one_band_gain (sr : Z) (c c' : cplx) : Prop :=
  exists band, In band (bands sr)
               /\ Fl.eqv (re c') (Fl.mul (re c) (Fin (gains (fst band))))
               /\ Fl.eqv (im c') (Fl.mul (im c) (Fin (gains (fst band)))).

Fixpoint apply_bands (freqs : list Q) (bs : list (string * (Z * Z)))
         (D : list (list cplx)) : result (list (list cplx)) :=
  match bs with
  | [] => Ok D
  | b :: rest => D' <- apply_band freqs D b ;; apply_bands freqs rest D'
  end.

(** [int(0.02 * 44100)], the product taken in binary64 *)
#[warnings="-inexact-float"]
Definition delay_samples : nat :=
  match Fl.float_int (0.02 * 44100)%float with
  | Some z => Z.to_nat z
  | None => 0%nat
  end.

(** [_enhance_stereo] *)
Definition _enhance_stereo {A} (audio : list A) : list (list A) :=
  let left := audio in
  let right := audio in
  let right := roll right delay_samples in
  vstack left right.

(** the delay line of the specification: [d] samples of silence, then the
    input, cut to the length of the input *)
Definition spec_delay (d : nat) (audio : list fval) : list fval :=
  firstn (length audio) (zeros d ++ audio).

Definition clip (p : fval) : fval :=
  if Fl.gtb (Fl.abs p) (Fin target_peak)
  then Fl.mul (Fl.sign p) (Fin target_peak) else p.

Definition limiting_gain (peak : fval) : fval :=
  py_min (Fl.div (Fin target_peak) peak) (Fin 1).




(** [_apply_limiting] on a (channels, samples) array *)
Definition _apply_limiting (audio : list (list fval)) : result (list (list fval)) :=
  peak <- np_max (np_abs (concat audio)) ;;
  let gain := limiting_gain peak in
  let processed := map (map (fun a => Fl.mul a gain)) audio in
  Ok (map (map clip) processed).

Definition mastered_path : string := "data/audio/mastered/final_track.wav".

Section Master.

Context (lib : Librosa) (w : World).

(** [_apply_compression] *)
Definition _apply_compression (audio : list fval) : result (list fval) :=
  frames <- rms lib audio ;;
  match frames with
  | [] => Raise (Exception "index 0 is out of bounds")
  | rms0 :: _ =>
      let threshold := Fl.mul (np_mean rms0) (Fin (15 # 10)) in
      Ok (compress threshold audio)
  end.

(** [_apply_eq] *)
Definition _apply_eq (audio : list fval) (sr : Z) : result (list fval) :=
  D <- stft lib audio ;;
  D' <- apply_bands (fft_frequencies sr) (bands sr) D ;;
  istft lib D'.

(** [_calculate_audio_metrics] *)
Definition _calculate_audio_metrics (audio : list (list fval)) (sr : Z)
  : result audio_metrics :=
  peak <- np_max (np_abs (concat audio)) ;;
  let flat := concat audio in
  let mean_sq := np_mean (map (fun x => Fl.mul x x) flat) in
  d <- py_truediv (Z.of_nat (length audio)) sr ;;
  Ok {| peak_db := Fl.mul (Fin 20) (np_log10 lib peak);
        rms_db := Fl.mul (Fin 20) (np_log10 lib (np_sqrt lib mean_sq));
        duration := d;
        sample_rate := sr |}.

(** the four stages, in their order *)
Definition processing_chain (audio : list fval) (sr : Z)
  : result (list (list fval)) :=
  processed <- _apply_compression audio ;;
  processed <- _apply_eq processed sr ;;
  let processed := _enhance_stereo processed in
  _apply_limiting processed.

Definition to_mono (a : ndarray) : list fval :=
  match a with
  | Arr1 l => l
  | Arr2 rows => map np_mean rows
  end.

(** the inner [try]: shape the array to (2, samples) and write its
    transpose *)
Definition write_stereo (processed : list (list fval)) (sr : Z)
  : result (list (list fval)) :=
  let processed :=
    if Nat.eqb (length processed) 2 then processed
    else if forallb (fun r => Nat.eqb (length r) 2) processed
         then transpose processed
         else processed in
  _ <- sf_write w mastered_path (Arr2 (transpose processed)) sr ;;
  Ok processed.

(** [master_audio]: either handler returns the input path. *)
Definition master_body (audio_path : string) : result string :=
  '(audio, sr) <- sf_read w audio_path ;;
  let audio := to_mono audio in
  processed <- processing_chain audio sr ;;
  _ <- mkdir w "data/audio/mastered" ;;
  match write_stereo processed sr with
  | Raise _ => Ok audio_path
  | Ok processed =>
      metadata <- _calculate_audio_metrics processed sr ;;
      _ <- dump_audio_metrics w "data/audio/mastered/mastering_metadata.json" metadata ;;
      Ok mastered_path
  end.

Definition master_audio (audio_path : string) : result string :=
  match master_body audio_path with
  | Ok p => Ok p
  | Raise _ => Ok audio_path
  end.

End Master.

End Mastering.

(* ------------------------------------------------------------------ *)
(** ** [src/agents/sanitizer.py] *)

Module Sanitizer.

Record comment : Type := {
  body : string;
  author : string;
  score : Z
}.

Record cleaned_comment : Type := {
  text : string;
  c_author : string;
  c_score : Z
}.

Record content : Type := {
  title : string;
  selftext : string;
  post_author : string;
  subreddit : string;
  comments : list comment
}.

Record cleaned_data : Type := {
  cd_title : string;
  main_text : string;
  cd_author : string;
  cd_subreddit : string;
  cd_comments : list cleaned_comment
}.

(** [sorted(..., key=lambda x: x["score"], reverse=True)] is stable: of
    two comments with one score the earlier stays first. *)
Fixpoint insert_desc (x : cleaned_comment) (l : list cleaned_comment)
  : list cleaned_comment :=
  match l with
  | [] => [x]
  | y :: t => if (c_score x <? c_score y)%Z then y :: insert_desc x t
              else x :: y :: t
  end.

Fixpoint sorted_desc (l : list cleaned_comment) : list cleaned_comment :=
  match l with
  | [] => []
  | x :: t => insert_desc x (sorted_desc t)
  end.

(** descending order of score, and the test of the filter *)
Definition score_ge (a b : cleaned_comment) : Prop := (c_score b <= c_score a)%Z.

Definition positive (c : comment) : bool := (score c >? 0)%Z.

(** [re.sub(r'[^a-zA-Z0-9_-]', '_', author)] *)
Definition safe_char (c : Ascii.ascii) : Ascii.ascii :=
  let n := Ascii.nat_of_ascii c in
  if ((97 <=? n) && (n <=? 122) || (65 <=? n) && (n <=? 90)
      || (48 <=? n) && (n <=? 57) || (n =? 95) || (n =? 45))%nat
  then c else "_"%char.

(** the characters of the class [a-zA-Z0-9_-] *)
Definition name_char (c : Ascii.ascii) : bool :=
  let n := Ascii.nat_of_ascii c in
  ((97 <=? n) && (n <=? 122) || (65 <=? n) && (n <=? 90)
   || (48 <=? n) && (n <=? 57) || (n =? 95) || (n =? 45))%nat.

Fixpoint safe_name (s : string) : string :=
  match s with
  | EmptyString => EmptyString
  | String c t => String (safe_char c) (safe_name t)
  end.

Section Clean.

(** [_clean_string] is a chain of regular-expression substitutions; the
    comment list does not depend on what it computes. *)
Context (_clean_string : string -> string).
Context (save_json : string -> cleaned_data -> result unit).

Definition clean_comment (c : comment) : cleaned_comment :=
  {| text := _clean_string (body c);
     c_author := author c;
     c_score := score c |}.

(** the loop over [content["comments"]] *)
Fixpoint kept_comments (cs : list comment) : list cleaned_comment :=
  match cs with
  | [] => []
  | c :: rest =>
      if (score c >? 0)%Z then clean_comment c :: kept_comments rest
      else kept_comments rest
  end.

Definition build_cleaned (c : content) : cleaned_data :=
  {| cd_title := _clean_string (title c);
     main_text := _clean_string (selftext c);
     cd_author := post_author c;
     cd_subreddit := subreddit c;
     cd_comments := sorted_desc (kept_comments (comments c)) |}.

(** [clean_text] *)
Definition clean_text (c : content) : result cleaned_data :=
  let cleaned := build_cleaned c in
  let output_path :=
    ("data/processed/cleaned_" ++ safe_name (post_author c) ++ ".json")%string in
  _ <- save_json output_path cleaned ;;
  Ok cleaned.

End Clean.

End Sanitizer.

(* ------------------------------------------------------------------ *)
(** ** [src/agents/sanitizer.py]: [_clean_string] *)

(** The text is a sequence of code points below 256; on these, [\s] and
    [str.strip] know the same twelve whitespace characters, [\d] the ten
    ASCII digits, and [str.lower] moves A-Z and the capital letters of
    Latin-1 by 32. *)
Module CleanString.

Definition code (c : ascii) : nat := nat_of_ascii c.

Definition between (lo hi n : nat) : bool := ((lo <=? n) && (n <=? hi))%nat.

Definition newline : ascii := ascii_of_nat 10.
Definition dquote : ascii := ascii_of_nat 34.

(** [\s] *)
Definition is_space (c : ascii) : bool :=
  let n := code c in
  (between 9 13 n || between 28 32 n || (n =? 133) || (n =? 160))%nat.

(** [\S] *)
Definition nonspace (c : ascii) : bool := negb (is_space c).

(** [\d] *)
Definition is_digit (c : ascii) : bool := between 48 57 (code c).

(** [a-z] and [a-zA-Z] *)
Definition is_lower (c : ascii) : bool := between 97 122 (code c).
Definition is_alpha (c : ascii) : bool := is_lower c || between 65 90 (code c).

(** [.,!?] *)
Definition is_punct (c : ascii) : bool :=
  (Ascii.eqb c "." || Ascii.eqb c "," || Ascii.eqb c "!" || Ascii.eqb c "?")%char.

(** the class of the fourth substitution without its negation: a-z, 0-9,
    whitespace, the four punctuation marks, both quotes and the hyphen *)
Definition kept (c : ascii) : bool :=
  is_lower c || is_digit c || is_space c || is_punct c
  || (Ascii.eqb c "'" || Ascii.eqb c dquote || Ascii.eqb c "-")%char.

(** [str.lower] *)
Definition lower_char (c : ascii) : ascii :=
  let n := code c in
  if between 65 90 n || between 192 214 n || between 216 222 n
  then ascii_of_nat (n + 32) else c.

Fixpoint lower (s : string) : string :=
  match s with
  | EmptyString => EmptyString
  | String c t => String (lower_char c) (lower t)
  end.

(** the number of leading characters in the class [p]: a greedy [p+] *)
Fixpoint run (p : ascii -> bool) (s : string) : nat :=
  match s with
  | EmptyString => 0
  | String c t => if p c then S (run p t) else 0
  end.

Fixpoint drop (n : nat) (s : string) : string :=
  match n, s with
  | S k, String _ t => drop k t
  | _, _ => s
  end.

(** a literal at the start of [s]: what follows it *)
Fixpoint lit (p s : string) : option string :=
  match p with
  | EmptyString => Some s
  | String a p' =>
      match s with
      | EmptyString => None
      | String b s' => if Ascii.eqb a b then lit p' s' else None
      end
  end.

(** [a|b]: the first alternative that matches *)
Definition orelse {A} (a b : option A) : option A :=
  match a with
  | Some _ => a
  | None => b
  end.

(** [re.sub] with a pattern that matches no empty string.  [m] gives, for
    the text from a position on, the length of the match that starts
    there and its replacement; the scan emits the replacement and goes on
    behind the match, or emits the character and goes on behind it.
    [skip] counts the characters of a match still to pass over. *)
Fixpoint sub_from (m : string -> option (nat * string)) (skip : nat)
         (s : string) : string :=
  match s with
  | EmptyString => EmptyString
  | String c t =>
      match skip with
      | S k => sub_from m k t
      | O =>
          match m s with
          | Some (n, r) => (r ++ sub_from m (Nat.pred n) t)%string
          | None => String c (sub_from m 0 t)
          end
      end
  end.

Definition re_sub (m : string -> option (nat * string)) (s : string) : string :=
  sub_from m 0 s.

(** a pattern with a constant replacement *)
Definition replaced_by (r : string) (m : string -> option nat) (s : string)
  : option (nat * string) :=
  match m s with
  | Some n => Some (n, r)
  | None => None
  end.

(** [p\S+] for a literal [p] *)
Definition lit_nonspace (p s : string) : option nat :=
  match lit p s with
  | Some rest =>
      match run nonspace rest with
      | O => None
      | n => Some (String.length p + n)%nat
      end
  | None => None
  end.

(** [http\S+|www\S+|https\S+] *)
Definition url (s : string) : option nat :=
  orelse (lit_nonspace "http" s)
         (orelse (lit_nonspace "www" s) (lit_nonspace "https" s)).

(** [.*?] before [close]: the characters up to the first [close], none of
    them a newline *)
Fixpoint lazy_until (close : ascii) (s : string) : option nat :=
  match s with
  | EmptyString => None
  | String c t =>
      if Ascii.eqb c close then Some 0%nat
      else if Ascii.eqb c newline then None
      else option_map S (lazy_until close t)
  end.

Definition bracketed (open close : ascii) (s : string) : option nat :=
  match s with
  | EmptyString => None
  | String c t =>
      if Ascii.eqb c open
      then option_map (fun k => (k + 2)%nat) (lazy_until close t)
      else None
  end.

(** [\[.*?\]|\(.*?\)] *)
Definition markup (s : string) : option nat :=
  orelse (bracketed "[" "]" s) (bracketed "(" ")" s).

(** an alternative of the group that took [n] characters of [s], then [;] *)
Definition semicolon_after (n : nat) (s : string) : option nat :=
  match drop n s with
  | String c _ => if Ascii.eqb c ";" then Some (n + 1)%nat else None
  | EmptyString => None
  end.

Definition lit_semicolon (p s : string) : option nat :=
  match lit p s with
  | Some _ => semicolon_after (String.length p) s
  | None => None
  end.

(** [#\d+;] and [[a-zA-Z]+;]: the run is greedy, and giving a character
    of it back never finds the semicolon *)
Definition numeric_semicolon (s : string) : option nat :=
  match s with
  | String c t =>
      if Ascii.eqb c "#" then
        match run is_digit t with
        | O => None
        | n => semicolon_after (S n) s
        end
      else None
  | EmptyString => None
  end.

Definition letters_semicolon (s : string) : option nat :=
  match run is_alpha s with
  | O => None
  | n => semicolon_after n s
  end.

(** [&(?:amp|lt|gt|#\d+|[a-zA-Z]+);] *)
Definition entity (s : string) : option nat :=
  match s with
  | EmptyString => None
  | String c t =>
      if Ascii.eqb c "&" then
        option_map S
          (orelse (lit_semicolon "amp" t)
             (orelse (lit_semicolon "lt" t)
                (orelse (lit_semicolon "gt" t)
                   (orelse (numeric_semicolon t) (letters_semicolon t)))))
      else None
  end.

(** one character outside the class [kept] *)
Definition special (s : string) : option nat :=
  match s with
  | EmptyString => None
  | String c _ => if kept c then None else Some 1%nat
  end.

(** [\s+] *)
Definition spaces (s : string) : option nat :=
  match run is_space s with
  | O => None
  | n => Some n
  end.

(** [([.,!?])\1+], replaced by [\1] *)
Definition repeated (s : string) : option (nat * string) :=
  match s with
  | EmptyString => None
  | String c t =>
      if is_punct c then
        match run (Ascii.eqb c) t with
        | O => None
        | n => Some (S n, String c EmptyString)
        end
      else None
  end.

(** [str.strip] *)
Definition lstrip (s : string) : string := drop (run is_space s) s.

Fixpoint rstrip (s : string) : string :=
  match s with
  | EmptyString => EmptyString
  | String c t =>
      match rstrip t with
      | EmptyString => if is_space c then EmptyString else String c EmptyString
      | r => String c r
      end
  end.

Definition strip (s : string) : string := rstrip (lstrip s).

(** [_clean_string] *)
Definition _clean_string (text : string) : string :=
  match text with
  | EmptyString => EmptyString
  | _ =>
      let text := lower text in
      let text := re_sub (replaced_by EmptyString url) text in
      let text := re_sub (replaced_by EmptyString markup) text in
      let text := re_sub (replaced_by " " entity) text in
      let text := re_sub (replaced_by EmptyString special) text in
      let text := strip (re_sub (replaced_by " " spaces) text) in
      let text := re_sub repeated text in
      text
  end.

(** the characters of a text *)
Fixpoint chars (s : string) : list ascii :=
  match s with
  | EmptyString => []
  | String c t => c :: chars t
  end.

(** no two neighbours of a text stand in [r] *)
Fixpoint no_pair (r : ascii -> ascii -> bool) (s : string) : Prop :=
  match s with
  | EmptyString => True
  | String a t =>
      match t with
      | EmptyString => True
      | String b _ => r a b = false
      end /\ no_pair r t
  end.

Definition first_char (s : string) : option ascii :=
  match s with
  | EmptyString => None
  | String c _ => Some c
  end.

Fixpoint last_char (s : string) : option ascii :=
  match s with
  | EmptyString => None
  | String c t =>
      match t with
      | EmptyString => Some c
      | String _ _ => last_char t
      end
  end.

(** a punctuation mark and the same mark again; two blanks *)
Definition same_punct (a b : ascii) : bool := is_punct a && Ascii.eqb a b.
Definition both_blank (a b : ascii) : bool :=
  (Ascii.eqb a " " && Ascii.eqb b " ")%char.

(** the alphabet of a cleaned text: a-z, 0-9, the blank, the four
    punctuation marks, both quotes and the hyphen *)
Definition clean_char (c : ascii) : bool :=
  is_lower c || is_digit c || Ascii.eqb c " " || is_punct c
  || (Ascii.eqb c "'" || Ascii.eqb c dquote || Ascii.eqb c "-")%char.

End CleanString.

(* ------------------------------------------------------------------ *)
(** ** [src/main.py] *)

Module Main.

(** the [detail] of an [HTTPException]: the report of the handler, or
    whatever a stage put there *)
Record error_detail : Type := {
  error : string;
  traceback : string;
  step : string
}.

Inductive detail : Type :=
| Text (s : string)
| Report (d : error_detail).

(** what the handlers of [generate_diss] tell apart: an [HTTPException],
    and every other exception with its [str(e)] *)
Inductive exn : Type :=
| HTTPException (status_code : Z) (d : detail)
| OtherException (msg : string).

Inductive outcome (A : Type) : Type :=
| Done (a : A)
| Failed (e : exn).
Arguments Done {A} a.
Arguments Failed {A} e.

Definition bind {A B} (m : outcome A) (k : A -> outcome B) : outcome B :=
  match m with
  | Done a => k a
  | Failed e => Failed e
  end.

Definition str (e : Py.exn) : string :=
  match e with
  | ValueError msg => msg
  | Exception msg => msg
  end.

(** a call of an agent that raises no [HTTPException] *)
Definition call {A} (r : result A) : outcome A :=
  match r with
  | Ok a => Done a
  | Raise e => Failed (OtherException (str e))
  end.

(** [needle in hay] *)
Fixpoint contains (needle hay : string) : bool :=
  match hay with
  | EmptyString => String.prefix needle EmptyString
  | String _ t => String.prefix needle hay || contains needle t
  end.

(** the chain of [if]/[elif] on [error_lower] *)
Definition error_step (error_lower : string) : string :=
  if contains "asyncpraw" error_lower || contains "reddit" error_lower
  then "reddit_scraping"
  else if contains "sanitizer" error_lower then "text_cleaning"
  else if contains "theme" error_lower then "theme_extraction"
  else if contains "lyrics" error_lower then "lyrics_generation"
  else if contains "flow" error_lower then "flow_refinement"
  else if contains "speech" error_lower || contains "tts" error_lower
  then "text_to_speech"
  else if contains "beat" error_lower || contains "sync" error_lower
  then "beat_syncing"
  else if contains "master" error_lower || contains "audio" error_lower
  then "audio_mastering"
  else "unknown".

(** [if beat_url:] on an [Optional[str]] *)
Definition truthy (beat_url : option string) : option string :=
  match beat_url with
  | Some EmptyString => None
  | other => other
  end.

Record response (L : Type) : Type := {
  status : string;
  lyrics : L;
  audio_file : string
}.
Arguments status {L} r.
Arguments lyrics {L} r.
Arguments audio_file {L} r.

Section GenerateDiss.

(** The agents of the first six stages, the file written by the
    sanitizer, and [traceback.format_exc]. *)
Context {Themes Lyrics : Type}.
Context (scrape_reddit : string -> outcome Sanitizer.content).
Context (save_json : string -> Sanitizer.cleaned_data -> result unit).
Context (extract_themes : Sanitizer.cleaned_data -> outcome Themes).
Context (generate_lyrics : Themes -> string -> outcome Lyrics).
Context (refine_flow : Lyrics -> Z -> outcome Lyrics).
Context (text_to_speech : Lyrics -> outcome string).
Context (format_exc : string -> string).
Context (lib : Librosa) (w : World).

(** the body of the [try] *)
Definition stages (url style : string) (beat_url : option string)
           (flow_complexity : Z) : outcome (response Lyrics) :=
  bind (scrape_reddit url) (fun content =>
  bind (call (Sanitizer.clean_text CleanString._clean_string save_json content))
       (fun cleaned_text =>
  bind (extract_themes cleaned_text) (fun themes =>
  bind (generate_lyrics themes style) (fun lyrics =>
  bind (refine_flow lyrics flow_complexity) (fun refined_lyrics =>
  bind (text_to_speech refined_lyrics) (fun speech_file =>
  bind (match truthy beat_url with
        | Some beat_url => call (BeatSync.sync_to_beat lib w speech_file beat_url)
        | None => Done speech_file
        end) (fun synced_audio =>
  bind (call (Mastering.master_audio lib w synced_audio)) (fun final_track =>
  Done {| status := "success";
          lyrics := refined_lyrics;
          audio_file := final_track |})))))))).

(** [generate_diss]: an [HTTPException] passes, every other exception
    becomes one with status 500 and a report. *)
Definition generate_diss (url style : string) (beat_url : option string)
           (flow_complexity : Z) : outcome (response Lyrics) :=
  match stages url style beat_url flow_complexity with
  | Done r => Done r
  | Failed (HTTPException c d) => Failed (HTTPException c d)
  | Failed (OtherException msg) =>
      let error_lower := CleanString.lower msg in
      Failed (HTTPException 500
                (Report {| error := msg;
                           traceback := format_exc msg;
                           step := error_step error_lower |}))
  end.

End GenerateDiss.

End Main.

(* ------------------------------------------------------------------ *)
(** ** Stand-ins for the libraries, for running the code on examples *)

Module Fixtures.

(** [librosa.frames_to_time] with the default hop of 512 samples *)
Definition hop_times (frames : list Z) (sr : Z) : list float :=
  map (fun f => (Fl.float_of_int (f * 512) / Fl.float_of_int sr)%float) frames.

(** A librosa that loads the given waveform at 22050 Hz from any path,
    finds a tempo of 120 with beats at frames 0 and 43, leaves the audio as
    it is when stretching, reports the given onset frames and one RMS frame,
    and whose transforms are the identity on a single bin row. *)
Definition librosa_with (loaded : list Q) (onsets : list Z) (rms0 : list fval)
  : Librosa :=
  {| load := fun _ => Ok (wave loaded, 22050%Z);
     beat_track := fun _ _ => Ok (Fin 120, [0; 43]%Z);
     frames_to_time := fun fr sr => Ok (hop_times fr sr);
     time_stretch := fun a _ => Ok a;
     onset_strength := fun a _ => Ok a;
     onset_detect := fun _ _ => Ok onsets;
     rms := fun _ => Ok [rms0];
     stft := fun a => Ok (repeat (map (fun x => Cplx x Fl.zero) a) 1025);
     istft := fun D => Ok (map re (hd [] D));
     np_log10 := fun x => x;
     np_sqrt := fun x => x |}.

(** a spectrum of one frame with every bin at [1 + 0j] *)
Definition flat_spectrum : list (list cplx) :=
  repeat [Cplx (Fin 1) (Fin 0)] 1025.

(** bin [k] of the first frame of a spectrum *)
Definition bin_at (r : result (list (list cplx))) (k : nat) : option cplx :=
  match r with
  | Ok D => nth_error (nth k D []) 0
  | Raise _ => None
  end.

(** eight samples, 0.1 to 0.8 *)
Definition ramp8 : list fval :=
  wave [1 # 10; 2 # 10; 3 # 10; 4 # 10; 5 # 10; 6 # 10; 7 # 10; 8 # 10].

(** [n] samples that rise from 1/4096 in steps of 1/4096 *)
Definition ramp (n : nat) : list Q :=
  map (fun i => Z.of_nat (S i) # 4096) (seq 0 n).

(** A world in which the download answers with [status] and every file
    operation succeeds. *)
Definition world_with (status : Z) (input : ndarray) (sr : Z) : World :=
  {| http_get := fun _ => Ok (status, "beat"%string);
     write_temp_file := fun _ _ => Ok "/tmp/beat.mp3"%string;
     sf_read := fun _ => Ok (input, sr);
     sf_write := fun _ _ _ => Ok tt;
     mkdir := fun _ => Ok tt;
     dump_sync_metadata := fun _ _ => Ok tt;
     dump_audio_metrics := fun _ _ => Ok tt |}.

(** the same librosa, with the beat frames given *)
Definition librosa_with_beats (loaded : list Q) (beats onsets : list Z) : Librosa :=
  {| load := fun _ => Ok (wave loaded, 22050%Z);
     beat_track := fun _ _ => Ok (Fin 120, beats);
     frames_to_time := fun fr sr => Ok (hop_times fr sr);
     time_stretch := fun a _ => Ok a;
     onset_strength := fun a _ => Ok a;
     onset_detect := fun _ _ => Ok onsets;
     rms := fun _ => Ok [[Fin 0]];
     stft := fun a => Ok (repeat (map (fun x => Cplx x Fl.zero) a) 1025);
     istft := fun D => Ok (map re (hd [] D));
     np_log10 := fun x => x;
     np_sqrt := fun x => x |}.

End Fixtures.

(* ================================================================== *)
(** * Properties *)

(* ------------------------------------------------------------------ *)
(** ** Sanitizer: the comment list *)

Module SanitizerProofs.

Import Sanitizer.

Lemma insert_desc_perm x l : Permutation (insert_desc x l) (x :: l).
Proof.
  induction l as [|y t IH]; simpl.
  - apply Permutation_refl.
  - destruct (c_score x <? c_score y)%Z.
    + eapply perm_trans; [apply perm_skip, IH | apply perm_swap].
    + apply Permutation_refl.
Qed.

Lemma sorted_desc_perm l : Permutation (sorted_desc l) l.
Proof.
  induction l as [|x t IH]; simpl.
  - constructor.
  - eapply perm_trans; [apply insert_desc_perm | now apply perm_skip].
Qed.

Lemma insert_desc_sorted x l :
  StronglySorted score_ge l -> StronglySorted score_ge (insert_desc x l).
Proof.
  induction 1 as [|y t Hs IH Hy]; simpl.
  - repeat constructor.
  - destruct (c_score x <? c_score y)%Z eqn:E.
    + constructor; [exact IH|].
      apply Z.ltb_lt in E.
      eapply Permutation_Forall; [apply Permutation_sym, insert_desc_perm|].
      constructor; [unfold score_ge; lia | exact Hy].
    + apply Z.ltb_ge in E.
      constructor; [constructor; assumption|].
      constructor; [exact E|].
      eapply Forall_impl; [|exact Hy].
      unfold score_ge; intros; lia.
Qed.

Lemma sorted_desc_sorted l : StronglySorted score_ge (sorted_desc l).
Proof.
  induction l; simpl; [constructor | now apply insert_desc_sorted].
Qed.

Lemma kept_comments_filter cs l :
  kept_comments cs l = map (clean_comment cs) (filter positive l).
Proof.
  induction l as [|c t IH]; simpl; [reflexivity|].
  unfold positive at 1. destruct (score c >? 0)%Z; simpl; now rewrite IH.
Qed.

(** Comments of one score keep the order they had in the input. *)
Lemma insert_desc_stable s x l :
  StronglySorted score_ge l ->
  filter (fun c => (c_score c =? s)%Z) (insert_desc x l)
  = filter (fun c => (c_score c =? s)%Z) (x :: l).
Proof.
  induction 1 as [|y t Hs IH Hy]; [reflexivity|].
  simpl insert_desc. destruct (c_score x <? c_score y)%Z eqn:E; [|reflexivity].
  apply Z.ltb_lt in E.
  change (filter _ (y :: insert_desc x t))
    with (if (c_score y =? s)%Z
          then y :: filter (fun c => (c_score c =? s)%Z) (insert_desc x t)
          else filter (fun c => (c_score c =? s)%Z) (insert_desc x t)).
  rewrite IH. simpl.
  destruct (c_score x =? s)%Z eqn:Ex, (c_score y =? s)%Z eqn:Ey; try reflexivity.
  apply Z.eqb_eq in Ex, Ey. lia.
Qed.

Lemma sorted_desc_stable s l :
  filter (fun c => (c_score c =? s)%Z) (sorted_desc l)
  = filter (fun c => (c_score c =? s)%Z) l.
Proof.
  induction l as [|x t IH]; [reflexivity|].
  simpl sorted_desc. rewrite insert_desc_stable by apply sorted_desc_sorted.
  simpl. now rewrite IH.
Qed.

(** C8.  The comments of the cleaned record are the comments of the input
    of strictly positive score, each with its body cleaned and its author
    and score kept, in descending order of score; [clean_text] returns that
    record once it has been saved. *)
Theorem clean_text_comments :
  forall (cs : string -> string) (save : string -> cleaned_data -> result unit)
         (c : content),
    let out := cd_comments (build_cleaned cs c) in
    Permutation out (map (clean_comment cs) (filter positive (comments c)))
    /\ (forall x, In x out <->
          exists k, In k (comments c) /\ (0 < score k)%Z
                    /\ text x = cs (body k) /\ c_author x = author k
                    /\ c_score x = score k)
    /\ StronglySorted score_ge out
    /\ (forall d, clean_text cs save c = Ok d -> cd_comments d = out)
    /\ (forall e, clean_text cs save c = Raise e ->
          save ("data/processed/cleaned_" ++ safe_name (post_author c) ++ ".json")%string
               (build_cleaned cs c) = Raise e).
Proof.
  intros cs save c out.
  assert (P : Permutation out (map (clean_comment cs) (filter positive (comments c)))).
  { unfold out; simpl. rewrite <- kept_comments_filter. apply sorted_desc_perm. }
  split; [exact P|]. split; [|split; [|split]].
  - intro x. split.
    + intro Hx. apply (Permutation_in _ P) in Hx.
      apply in_map_iff in Hx. destruct Hx as [k [<- Hk]].
      apply filter_In in Hk. destruct Hk as [Hin Hpos].
      exists k. unfold positive in Hpos. apply Z.gtb_lt in Hpos.
      simpl. auto.
    + intros [k [Hin [Hpos [Ht [Ha Hs]]]]].
      apply (Permutation_in _ (Permutation_sym P)).
      apply in_map_iff. exists k. split.
      * destruct x; simpl in *; subst; reflexivity.
      * apply filter_In. split; [exact Hin|].
        unfold positive. now apply Z.gtb_lt.
  - apply sorted_desc_sorted.
  - intros d. unfold clean_text.
    destruct (save _ _); simpl; intro H; inversion H; reflexivity.
  - intros e. unfold clean_text.
    destruct (save _ _); simpl; intro H; inversion H; reflexivity.
Qed.

(** Scores 10, -5, 3, 10 and 0: the two tens in their order, then the
    three. *)
Example clean_text_example :
  (let c k a s := {| body := k; author := a; score := s |} in
   cd_comments
     (build_cleaned (fun s => s)
        {| title := "t"; selftext := "b"; post_author := "u"; subreddit := "r";
           comments := [c "one" "a" 10%Z; c "two" "b" (-5)%Z; c "three" "c" 3%Z;
                        c "four" "d" 10%Z; c "five" "e" 0%Z] |})
   = [ {| text := "one"; c_author := "a"; c_score := 10 |};
       {| text := "four"; c_author := "d"; c_score := 10 |};
       {| text := "three"; c_author := "c"; c_score := 3 |} ])%string.
Proof. reflexivity. Qed.

End SanitizerProofs.

(* ------------------------------------------------------------------ *)
(** ** Exceptions *)

Module PyFacts.

Lemma bind_ok {A B} (m : result A) (k : A -> result B) b :
  Py.bind m k = Ok b -> exists a, m = Ok a /\ k a = Ok b.
Proof. destruct m as [a|e]; simpl; [eauto | discriminate]. Qed.

Lemma Ok_inj {A} (a b : A) : Ok a = Ok b -> a = b.
Proof. intro H. now inversion H. Qed.

Lemma bind_raise {A B} (m : result A) (k : A -> result B) e :
  m = Raise e -> Py.bind m k = Raise e.
Proof. intros ->. reflexivity. Qed.

Lemma bind_raise_inv {A B} (m : result A) (k : A -> result B) e :
  Py.bind m k = Raise e ->
  m = Raise e \/ exists a, m = Ok a /\ k a = Raise e.
Proof.
  destruct m as [a|e']; simpl; [eauto|].
  intro H. left. inversion H. reflexivity.
Qed.

End PyFacts.

(* ------------------------------------------------------------------ *)
(** ** Arrays: slices and rotation *)

Module NpFacts.

Import Np.

Lemma length_zeros n : length (zeros n) = n.
Proof. apply repeat_length. Qed.

Lemma nth_zeros i n : nth i (zeros n) Fl.zero = Fl.zero.
Proof.
  unfold zeros. revert i. induction n; intros [|i]; simpl; auto.
Qed.

Lemma nth_indep_zero i n : (i < n)%nat -> nth i (zeros n) NaN = Fl.zero.
Proof.
  unfold zeros. revert i. induction n; intros [|i] H; simpl; try lia; auto.
  apply IHn. lia.
Qed.

Lemma length_roll {A} (a : list A) k : length (roll a k) = length a.
Proof.
  unfold roll. rewrite length_app, length_skipn, length_firstn. lia.
Qed.

Lemma roll_nil {A} k : roll (@nil A) k = [].
Proof. reflexivity. Qed.

Lemma nth_skipn {A} (a : list A) m i d : nth i (skipn m a) d = nth (m + i) a d.
Proof.
  revert a. induction m; intros a; simpl; [reflexivity|].
  destruct a; simpl; [now destruct i | apply IHm].
Qed.

Lemma nth_firstn {A} (a : list A) m i d :
  (i < m)%nat -> nth i (firstn m a) d = nth i a d.
Proof.
  revert a i. induction m; intros a i H; [lia|].
  destruct a; simpl; [reflexivity|].
  destruct i; [reflexivity | apply IHm; lia].
Qed.

(** Element [i] of the rotated array is element [(i - k) mod n] of the
    array. *)
Lemma nth_roll {A} (a : list A) k i d :
  (i < length a)%nat ->
  nth i (roll a k) d
  = nth ((i + (length a - k mod length a)) mod length a) a d.
Proof.
  intro Hi. unfold roll.
  set (n := length a) in *.
  assert (Hn : (n <> 0)%nat) by lia.
  destruct (Nat.eqb n 0) eqn:E; [apply Nat.eqb_eq in E; lia|].
  assert (Hk : (k mod n < n)%nat) by (apply Nat.mod_upper_bound; exact Hn).
  set (r := (k mod n)%nat) in *.
  destruct (Nat.lt_ge_cases i r) as [Hlt|Hge].
  - rewrite app_nth1 by (rewrite length_skipn; fold n; lia).
    rewrite nth_skipn. f_equal.
    rewrite Nat.mod_small by lia. lia.
  - rewrite app_nth2 by (rewrite length_skipn; fold n; lia).
    rewrite length_skipn. fold n.
    replace (n - (n - r))%nat with r by lia.
    rewrite nth_firstn by lia. f_equal.
    replace (i + (n - r))%nat with ((i - r) + 1 * n)%nat by lia.
    rewrite Nat.Div0.mod_add. rewrite Nat.mod_small by lia. reflexivity.
Qed.

(** From sample [k] on, the rotated array is the array [k] samples late. *)
Lemma nth_roll_late {A} (a : list A) k i d :
  (k <= i < length a)%nat -> nth i (roll a k) d = nth (i - k) a d.
Proof.
  intros [Hk Hi]. rewrite nth_roll by exact Hi. f_equal.
  rewrite (Nat.mod_small k) by lia.
  replace (i + (length a - k))%nat with ((i - k) + 1 * length a)%nat by lia.
  rewrite Nat.Div0.mod_add. apply Nat.mod_small. lia.
Qed.

(** Before sample [k], it holds the end of the array. *)
Lemma nth_roll_wrap {A} (a : list A) k i d :
  (i < k <= length a)%nat -> nth i (roll a k) d = nth (length a - k + i) a d.
Proof.
  intros [Hi Hk].
  assert (Hn : (i < length a)%nat) by lia.
  rewrite nth_roll by exact Hn. f_equal.
  destruct (Nat.eq_dec k (length a)) as [->|Hne].
  - rewrite Nat.Div0.mod_same, Nat.sub_0_r, Nat.sub_diag.
    replace (i + length a)%nat with (i + 1 * length a)%nat by lia.
    rewrite Nat.Div0.mod_add. now rewrite Nat.mod_small by lia.
  - rewrite (Nat.mod_small k) by lia. rewrite Nat.mod_small by lia. lia.
Qed.

End NpFacts.

(* ------------------------------------------------------------------ *)
(** ** Mastering: stereo enhancement *)

Module StereoProofs.

Import Np NpFacts Mastering.

Lemma delay_samples_882 : delay_samples = 882%nat.
Proof. vm_compute. reflexivity. Qed.

(** What the stage computes on every input: two channels of the length
    of the input; the first is the input, the second is the input rotated
    by [int(0.02 * 44100) = 882] samples: from sample 882 on it is the
    input 882 samples late, and before that it holds the last 882 samples
    of the input. *)
Lemma enhance_stereo_roll :
  forall (audio : list fval),
    delay_samples = 882%nat
    /\ exists left right,
        _enhance_stereo audio = [left; right]
        /\ left = audio
        /\ length right = length audio
        /\ (forall i, (i < length audio)%nat ->
              nth i right NaN
              = nth ((i + (length audio - 882 mod length audio)) mod length audio)
                    audio NaN)
        /\ (forall i, (882 <= i < length audio)%nat ->
              nth i right NaN = nth (i - 882) audio NaN)
        /\ (forall i, (i < 882 <= length audio)%nat ->
              nth i right NaN = nth (length audio - 882 + i) audio NaN).
Proof.
  intro audio. split; [exact delay_samples_882|].
  exists audio, (roll audio delay_samples).
  rewrite delay_samples_882.
  split; [unfold _enhance_stereo, vstack; now rewrite delay_samples_882|].
  split; [reflexivity|].
  split; [apply length_roll|].
  split; [intros; now apply nth_roll|].
  split; [intros; now apply nth_roll_late | intros; now apply nth_roll_wrap].
Qed.

(** C6.  The claim is what the source announces ([# Apply slight delay],
    [# 20ms delay]) and not what [np.roll] does.  On a waveform of 1024
    samples the stage returns two channels of 1024 samples, the first the
    input, and [int(0.02 * 44100)] is 882; but the second channel is the
    input rotated: it begins with the last 882 samples of the input, so its
    first sample is sample 142 of the input, where the input delayed by 882
    samples has silence. *)
Theorem enhance_stereo_wraps :
  let audio := wave (Fixtures.ramp 1024) in
  delay_samples = 882%nat
  /\ exists right,
      _enhance_stereo audio = [audio; right]
      /\ length right = 1024%nat
      /\ right = skipn 142 audio ++ firstn 142 audio
      /\ nth 0 right NaN = nth 142 audio NaN
      /\ nth 0 right NaN = Fin (143 # 4096)
      /\ nth 0 (spec_delay 882 audio) NaN = Fin 0
      /\ _enhance_stereo audio <> [audio; spec_delay 882 audio].
Proof.
  cbv zeta. split; [exact delay_samples_882|].
  assert (E : _enhance_stereo (wave (Fixtures.ramp 1024))
              = [wave (Fixtures.ramp 1024);
                 skipn 142 (wave (Fixtures.ramp 1024))
                 ++ firstn 142 (wave (Fixtures.ramp 1024))])
    by (vm_compute; reflexivity).
  eexists. split; [exact E|].
  split; [vm_compute; reflexivity|]. split; [reflexivity|].
  split; [vm_compute; reflexivity|]. split; [vm_compute; reflexivity|].
  split; [vm_compute; reflexivity|].
  rewrite E. intro H.
  apply (f_equal (fun l => nth 0 (nth 1 l []) NaN)) in H.
  vm_compute in H. discriminate H.
Qed.

End StereoProofs.

(* ------------------------------------------------------------------ *)
(** ** Sample values: comparisons and maxima *)

Module FlFacts.

Import Np.

Lemma Qltb_lt x y : Fl.Qltb x y = true <-> x < y.
Proof.
  unfold Fl.Qltb. rewrite negb_true_iff. split; intro H.
  - apply Qnot_le_lt. intro L. apply Qle_bool_iff in L. congruence.
  - destruct (Qle_bool y x) eqn:E; [|reflexivity].
    apply Qle_bool_iff in E. exfalso. exact (Qlt_not_le _ _ H E).
Qed.

Lemma Qltb_ge x y : Fl.Qltb x y = false <-> y <= x.
Proof.
  unfold Fl.Qltb. rewrite negb_false_iff. apply Qle_bool_iff.
Qed.

Lemma is_zero_true q : Fl.is_zero q = true <-> q == 0.
Proof. apply Qeq_bool_iff. Qed.

Lemma is_zero_false q : Fl.is_zero q = false <-> ~ q == 0.
Proof.
  unfold Fl.is_zero. split; intro H.
  - intro E. apply Qeq_bool_iff in E. congruence.
  - destruct (Qeq_bool q 0) eqn:E; [|reflexivity].
    apply Qeq_bool_iff in E. contradiction.
Qed.


Lemma np_abs_wave l : np_abs (wave l) = wave (map Qabs l).
Proof. unfold np_abs, wave. now rewrite !map_map. Qed.

Lemma concat_wave ll : concat (map wave ll) = wave (concat ll).
Proof. unfold wave. now rewrite concat_map. Qed.

Lemma fmax_fin x y : fmax (Fin x) (Fin y) = Fin (if Fl.Qltb x y then y else x).
Proof. unfold fmax; simpl. now destruct (Fl.Qltb x y). Qed.

(** The maximum of finite values is one of them and bounds them all. *)
Lemma fold_fmax_wave t : forall x,
  exists m, fold_left fmax (wave t) (Fin x) = Fin m
            /\ x <= m /\ Forall (fun y => y <= m) t /\ (m = x \/ In m t).
Proof.
  induction t as [|y t IH]; intro x; simpl.
  - exists x. repeat split; [apply Qle_refl | constructor | now left].
  - rewrite fmax_fin. destruct (Fl.Qltb x y) eqn:E.
    + apply Qltb_lt in E. destruct (IH y) as [m [Hm [Hy [Ht Hin]]]].
      exists m. split; [exact Hm|]. split; [|split].
      * eapply Qle_trans; [apply Qlt_le_weak, E | exact Hy].
      * constructor; assumption.
      * right. destruct Hin as [->|Hin]; [now left | now right].
    + apply Qltb_ge in E. destruct (IH x) as [m [Hm [Hx [Ht Hin]]]].
      exists m. split; [exact Hm|]. split; [exact Hx|]. split.
      * constructor; [eapply Qle_trans; eassumption | exact Ht].
      * destruct Hin as [->|Hin]; [now left | right; now right].
Qed.

(** [np.max(np.abs(a))] of a finite, non-empty array: the largest
    magnitude. *)
Lemma np_max_abs_wave l :
  l <> [] ->
  exists peak, np_max (np_abs (wave l)) = Ok (Fin peak)
               /\ 0 <= peak
               /\ Forall (fun a => Qabs a <= peak) l
               /\ Exists (fun a => peak = Qabs a) l.
Proof.
  destruct l as [|x t]; [congruence|]. intros _.
  rewrite np_abs_wave. simpl.
  destruct (fold_fmax_wave (map Qabs t) (Qabs x)) as [m [Hm [Hx [Ht Hin]]]].
  exists m. split; [f_equal; exact Hm|]. split; [|split].
  - eapply Qle_trans; [apply Qabs_nonneg | exact Hx].
  - constructor; [exact Hx|]. rewrite Forall_map in Ht. exact Ht.
  - destruct Hin as [->|Hin]; [now left|].
    right. apply in_map_iff in Hin. destruct Hin as [a [<- Ha]].
    apply Exists_exists. now exists a.
Qed.

End FlFacts.

(* ------------------------------------------------------------------ *)
(** ** Mastering: limiting *)

Module LimitingProofs.

Import Np NpFacts FlFacts Mastering.

Lemma target_peak_pos : 0 < target_peak.
Proof. reflexivity. Qed.

(** [target_peak] is [10 ** (-1/20)] to the last bit of a binary64: its
    twentieth power brackets [1/10] within one unit in the last place. *)
Lemma target_peak_accurate :
  (target_peak - (1 # 9007199254740992)) ^ 20 < 1 # 10
  /\ 1 # 10 < (target_peak + (1 # 9007199254740992)) ^ 20.
Proof. split; vm_compute; reflexivity. Qed.

(** What binary64 itself gives where the model has a special value: the
    constant, the quotient by zero, the comparison with infinity, and the
    quotient of zero by zero. *)
Lemma special_values_binary64 :
  Fl.float_Q target_peak_float = Some target_peak
  /\ PrimFloat.div target_peak_float 0 = PrimFloat.infinity
  /\ PrimFloat.ltb 1 PrimFloat.infinity = true
  /\ PrimFloat.div 0 0 = PrimFloat.nan
  /\ PrimFloat.ltb PrimFloat.nan 1 = false
  /\ PrimFloat.ltb 1 PrimFloat.nan = false.
Proof. repeat split; vm_compute; reflexivity. Qed.

Lemma limiting_gain_pos peak :
  0 < peak ->
  limiting_gain (Fin peak)
  = Fin (if Fl.Qltb 1 (target_peak / peak) then 1 else target_peak / peak).
Proof.
  intro Hp. unfold limiting_gain, py_min. simpl.
  assert (Z : Fl.is_zero peak = false).
  { apply is_zero_false. intro E. rewrite E in Hp. discriminate Hp. }
  rewrite Z. simpl. now destruct (Fl.Qltb 1 (target_peak / peak)).
Qed.

(** The divisor zero: the quotient is [+inf], and [min] returns [1.0]. *)
Lemma limiting_gain_silent peak :
  peak == 0 -> limiting_gain (Fin peak) = Fin 1.
Proof.
  intro Hp. unfold limiting_gain, py_min. simpl.
  assert (Z : Fl.is_zero peak = true) by now apply is_zero_true.
  rewrite Z. reflexivity.
Qed.

Lemma gain_range peak :
  0 < peak ->
  let g := if Fl.Qltb 1 (target_peak / peak) then 1 else target_peak / peak in
  0 < g /\ g <= 1 /\ g * peak <= target_peak /\ g == Qmin (target_peak / peak) 1.
Proof.
  intros Hp g. subst g.
  assert (Hq : 0 < target_peak / peak).
  { apply Qlt_shift_div_l; [exact Hp|]. rewrite Qmult_0_l. apply target_peak_pos. }
  assert (Hm : target_peak / peak * peak == target_peak).
  { field. intro E. rewrite E in Hp. discriminate Hp. }
  destruct (Fl.Qltb 1 (target_peak / peak)) eqn:E.
  - apply Qltb_lt in E. split; [reflexivity|]. split; [apply Qle_refl|]. split.
    + rewrite <- Hm. rewrite Qmult_1_l.
      rewrite <- (Qmult_1_l peak) at 1.
      apply Qmult_le_compat_r; [apply Qlt_le_weak, E | apply Qlt_le_weak, Hp].
    + symmetry. apply Q.min_r. apply Qlt_le_weak, E.
  - apply Qltb_ge in E. split; [exact Hq|]. split; [exact E|]. split.
    + rewrite Hm. apply Qle_refl.
    + symmetry. apply Q.min_l. exact E.
Qed.



Lemma clip_small q : Qabs q <= target_peak -> clip (Fin q) = Fin q.
Proof.
  intro H. unfold clip.
  change (Fl.gtb (Fl.abs (Fin q)) (Fin target_peak))
    with (Fl.Qltb target_peak (Qabs q)).
  apply Qltb_ge in H. now rewrite H.
Qed.

Lemma limiting_finite (chans : list (list Q)) peak :
  np_max (np_abs (concat (map wave chans))) = Ok (Fin peak) ->
  forall g, limiting_gain (Fin peak) = Fin g ->
  _apply_limiting (map wave chans)
  = Ok (map (fun ch => map (fun a => clip (Fin (a * g))) ch) chans).
Proof.
  intros Hmax g Hg. unfold _apply_limiting. rewrite Hmax. simpl. rewrite Hg.
  f_equal. rewrite !map_map. apply map_ext. intro ch.
  unfold wave. rewrite !map_map. reflexivity.
Qed.

Lemma nonsilent_peak l peak :
  Exists (fun a => ~ a == 0) l -> Forall (fun a => Qabs a <= peak) l -> 0 < peak.
Proof.
  intros He Hf. apply Exists_exists in He. destruct He as [a [Ha Hnz]].
  rewrite Forall_forall in Hf. specialize (Hf a Ha).
  eapply Qlt_le_trans; [|exact Hf].
  destruct (Qlt_le_dec 0 (Qabs a)) as [L|L]; [exact L|].
  exfalso. apply Hnz. apply Qabs_Qle_condition in L. destruct L. 
  apply Qle_antisym; assumption.
Qed.

End LimitingProofs.

Module LimitingTheorems.

Import Np NpFacts FlFacts Mastering LimitingProofs.



End LimitingTheorems.

(* ------------------------------------------------------------------ *)
(** ** Mastering: compression *)

Module CompressionProofs.

Import Np NpFacts FlFacts Mastering.

Lemma raw_gain_fin t a :
  raw_gain (Fin t) (Fin a)
  = if Fl.Qltb t (Qabs a)
    then Fl.div (Fin (t + (Qabs a + - t) / 4)) (Fin (Qabs a))
    else Fin 1.
Proof. reflexivity. Qed.

Lemma raw_gain_nan a : raw_gain NaN (Fin a) = Fin 1.
Proof. reflexivity. Qed.

Lemma raw_gain_unit thr a :
  valid_threshold thr -> Fl.unit_gain (raw_gain thr (Fin a)).
Proof.
  destruct thr as [t| | |]; simpl valid_threshold; intro Ht; try contradiction.
  - rewrite raw_gain_fin. destruct (Fl.Qltb t (Qabs a)) eqn:E.
    + apply Qltb_lt in E.
      assert (HA : 0 < Qabs a) by (eapply Qle_lt_trans; eassumption).
      unfold Fl.div.
      assert (Z : Fl.is_zero (Qabs a) = false).
      { apply is_zero_false. intro Q0. rewrite Q0 in HA. discriminate HA. }
      rewrite Z. cbn [Fl.unit_gain]. split.
      * apply Qlt_shift_div_l; [exact HA|].
        unfold Qdiv. change (/ 4) with (1 # 4). lra.
      * apply Qle_shift_div_r; [exact HA|].
        unfold Qdiv. change (/ 4) with (1 # 4). lra.
    + simpl. split; [reflexivity | apply Qle_refl].
  - rewrite raw_gain_nan. simpl. split; [reflexivity | apply Qle_refl].
Qed.

Lemma smooth_unit prev g :
  prev_ok prev -> Fl.unit_gain g -> Fl.unit_gain (smooth prev g).
Proof.
  destruct prev as [p|]; simpl; [|trivial].
  destruct p as [p| | |], g as [g| | |]; simpl; try tauto.
  intros [P0 P1] [G0 G1].
  destruct (Fl.Qltb g p) eqn:E; simpl.
  - apply Qltb_lt in E. split; lra.
  - apply Qltb_ge in E. split; lra.
Qed.

(** The smoothed gain moves from the gain before toward the raw gain and
    stays between the two. *)
Lemma smooth_between p g :
  0 < p -> 0 < g ->
  exists s, smooth (Some (Fin p)) (Fin g) = Fin s
            /\ Qmin p g <= s /\ s <= Qmax p g.
Proof.
  intros P0 G0. simpl. destruct (Fl.Qltb g p) eqn:E; simpl.
  - apply Qltb_lt in E. eexists; split; [reflexivity|].
    rewrite (Q.min_r p g), (Q.max_l p g) by lra. split; lra.
  - apply Qltb_ge in E. eexists; split; [reflexivity|].
    rewrite (Q.min_l p g), (Q.max_r p g) by lra. split; lra.
Qed.

Lemma gain_from_unit thr : valid_threshold thr ->
  forall audio prev, prev_ok prev ->
    Forall Fl.unit_gain (gain_from thr prev (wave audio)).
Proof.
  intros Ht. induction audio as [|a rest IH]; intros prev Hp; simpl.
  - constructor.
  - assert (U : Fl.unit_gain (smooth prev (raw_gain thr (Fin a)))).
    { apply smooth_unit; [exact Hp | now apply raw_gain_unit]. }
    constructor; [exact U | apply IH; exact U].
Qed.

Lemma length_gain_from thr audio : forall prev,
  length (gain_from thr prev audio) = length audio.
Proof. induction audio; intro prev; simpl; [reflexivity | now rewrite IHaudio]. Qed.

Lemma attenuate a g : 0 < g -> g <= 1 -> Qabs (a * g) <= Qabs a.
Proof.
  intros G0 G1. rewrite Qabs_Qmult, (Qabs_pos g) by lra.
  rewrite <- (Qmult_1_r (Qabs a)) at 2.
  rewrite (Qmult_comm (Qabs a) g), (Qmult_comm (Qabs a) 1).
  apply Qmult_le_compat_r; [exact G1 | apply Qabs_nonneg].
Qed.

Lemma map2_mul_unit audio : forall gain,
  length gain = length audio -> Forall Fl.unit_gain gain ->
  Forall2 (fun a o => exists g, 0 < g /\ g <= 1 /\ o = Fin (a * g)
                                /\ Qabs (a * g) <= Qabs a)
          audio (map2 Fl.mul (wave audio) gain).
Proof.
  induction audio as [|a rest IH]; intros gain Hl Hu.
  - constructor.
  - destruct gain as [|g gs]; [discriminate Hl|].
    inversion Hu as [|? ? Hg Hgs]; subst.
    destruct g as [g| | |]; simpl in Hg; try contradiction.
    destruct Hg as [G0 G1].
    change (map2 Fl.mul (wave (a :: rest)) (Fin g :: gs))
      with (Fin (a * g) :: map2 Fl.mul (wave rest) gs).
    constructor.
    + exists g. repeat split; try assumption. now apply attenuate.
    + apply IH; [simpl in Hl; lia | exact Hgs].
Qed.

Lemma fold_add_nonneg l : Forall Fl.nonneg_finite l ->
  forall acc, 0 <= acc ->
    exists s, fold_left Fl.add l (Fin acc) = Fin s /\ 0 <= s.
Proof.
  induction 1 as [|v l Hv Hl IH]; intros acc Ha; simpl.
  - now exists acc.
  - destruct v as [q| | |]; simpl in Hv; try contradiction.
    simpl. apply IH. lra.
Qed.

Lemma threshold_valid rms0 :
  Forall Fl.nonneg_finite rms0 ->
  valid_threshold (Fl.mul (np_mean rms0) (Fin (15 # 10))).
Proof.
  intro H. unfold np_mean, np_sum.
  destruct (fold_add_nonneg rms0 H 0 (Qle_refl 0)) as [s [Hs S0]].
  unfold Fl.zero. rewrite Hs. unfold Fl.div.
  destruct (Fl.is_zero (inject_Z (Z.of_nat (length rms0)))) eqn:Z.
  - apply is_zero_true in Z.
    destruct rms0 as [|x t]; [|exfalso; revert Z; simpl length;
      unfold Qeq; simpl; lia].
    simpl in Hs. inversion Hs; subst. exact I.
  - simpl. apply Qmult_le_0_compat; [|discriminate].
    apply Qle_shift_div_l.
    + apply is_zero_false in Z.
      assert (0 <= inject_Z (Z.of_nat (length rms0))).
      { unfold Qle; simpl. lia. }
      destruct (Qlt_le_dec 0 (inject_Z (Z.of_nat (length rms0)))) as [L|L];
        [exact L | exfalso; apply Z; apply Qle_antisym; assumption].
    + lra.
Qed.

End CompressionProofs.

Module CompressionTheorems.

Import Np NpFacts FlFacts Mastering CompressionProofs.

(** C9.  Compression never amplifies.  When the RMS frames of the input
    are finite and not negative, the stage returns, every smoothed gain
    [gain[i]] is finite and lies in (0, 1], and output sample [i] is input
    sample [i] times [gain[i]], so its magnitude is at most that of the
    input sample. *)
Theorem compression_never_amplifies :
  forall (lib : Librosa) (audio : list Q) (rms0 : list fval)
         (rest : list (list fval)),
    rms lib (wave audio) = Ok (rms0 :: rest) ->
    Forall Fl.nonneg_finite rms0 ->
    let threshold := Fl.mul (np_mean rms0) (Fin (15 # 10)) in
    let gain := gain_from threshold None (wave audio) in
    exists out,
      _apply_compression lib (wave audio) = Ok out
      /\ out = map2 Fl.mul (wave audio) gain
      /\ length gain = length audio
      /\ Forall Fl.unit_gain gain
      /\ Forall2 (fun a o => exists g, 0 < g /\ g <= 1 /\ o = Fin (a * g)
                                       /\ Qabs (a * g) <= Qabs a)
                 audio out.
Proof.
  intros lib audio rms0 rest Hrms Hnn threshold gain.
  assert (Ht : valid_threshold threshold) by now apply threshold_valid.
  assert (Hu : Forall Fl.unit_gain gain).
  { apply gain_from_unit; [exact Ht | exact I]. }
  assert (Hl : length gain = length audio).
  { unfold gain. rewrite length_gain_from. apply length_map. }
  exists (map2 Fl.mul (wave audio) gain).
  split; [unfold _apply_compression; rewrite Hrms; reflexivity|].
  split; [reflexivity|]. split; [exact Hl|]. split; [exact Hu|].
  now apply map2_mul_unit.
Qed.

Lemma compression_never_amplifies_witness :
  exists out,
    _apply_compression (Fixtures.librosa_with [] [] [Fin (1 # 4)])
                       (wave [1 # 2; -1; 1 # 10]) = Ok out
    /\ Forall2 (fun a o => exists g, 0 < g /\ g <= 1 /\ o = Fin (a * g)
                                     /\ Qabs (a * g) <= Qabs a)
               [1 # 2; -1; 1 # 10] out.
Proof.
  destruct (compression_never_amplifies
              (Fixtures.librosa_with [] [] [Fin (1 # 4)]) [1 # 2; -1; 1 # 10]
              [Fin (1 # 4)] [] eq_refl)
    as [out [H1 [_ [_ [_ H5]]]]].
  - constructor; [discriminate | constructor].
  - exists out. split; assumption.
Defined.

(** The gains the loop computes on that input, with threshold
    [0.25 * 1.5]: 13/16 for the first sample, then the attack toward
    17/32, then the release toward 1. *)
Example gain_from_example :
  let g0 := 13 # 16 in
  let g1 := g0 + ((17 # 32) - g0) * (3 # 1000) in
  let g2 := g1 + (1 - g1) * (1 # 10) in
  Forall2 Fl.eqv
          (gain_from (Fin (3 # 8)) None (wave [1 # 2; -1; 1 # 10]))
          [Fin g0; Fin g1; Fin g2].
Proof. repeat constructor. Qed.

End CompressionTheorems.

(* ------------------------------------------------------------------ *)
(** ** Mastering: silence through the chain *)

Module SilenceProofs.

Import Np NpFacts FlFacts Mastering LimitingProofs CompressionProofs.


Lemma silent_wave qs : Forall (fun a => a == 0) qs -> silent (wave qs).
Proof.
  intro H. unfold silent, wave. apply Forall_map.
  eapply Forall_impl; [|exact H]. intros a Ha. exact Ha.
Qed.





Lemma scale_czero g c : czero c -> czero (scale g c).
Proof.
  destruct c as [[x| | |] [y| | |]]; unfold czero; simpl; try tauto.
  intros [Hx Hy]. split; [rewrite Hx | rewrite Hy]; apply Qmult_0_l.
Qed.

Lemma apply_band_ok freqs D b :
  length freqs = length D ->
  exists D', apply_band freqs D b = Ok D' /\ length D' = length D
             /\ (Forall (Forall czero) D -> Forall (Forall czero) D').
Proof.
  intro Hl. destruct b as [name [low high]]. unfold apply_band.
  rewrite Hl, Nat.eqb_refl. eexists. split; [reflexivity|]. split.
  - unfold map2. rewrite length_map, length_combine. lia.
  - clear Hl. revert freqs. induction D as [|row D IH]; intros freqs HD.
    + destruct freqs; constructor.
    + destruct freqs as [|f fs]; [constructor|].
      inversion HD; subst. unfold map2. simpl. constructor.
      * destruct (in_band low high f); [|assumption].
        apply Forall_map. eapply Forall_impl; [|eassumption].
        intros c Hc. now apply scale_czero.
      * now apply IH.
Qed.

Lemma apply_bands_ok freqs bs : forall D,
  length freqs = length D ->
  exists D', apply_bands freqs bs D = Ok D' /\ length D' = length D
             /\ (Forall (Forall czero) D -> Forall (Forall czero) D').
Proof.
  induction bs as [|b bs IH]; intros D Hl; simpl.
  - exists D. auto.
  - destruct (apply_band_ok freqs D b Hl) as [D1 [E1 [L1 Z1]]].
    rewrite E1. simpl.
    destruct (IH D1) as [D2 [E2 [L2 Z2]]]; [congruence|].
    exists D2. split; [exact E2|]. split; [congruence | auto].
Qed.

Lemma length_fft_frequencies sr : length (fft_frequencies sr) = 1025%nat.
Proof. unfold fft_frequencies. now rewrite length_map, length_seq. Qed.


End SilenceProofs.

Module SilenceTheorems.

Import Np NpFacts FlFacts Mastering LimitingProofs CompressionProofs SilenceProofs.








End SilenceTheorems.


(* ------------------------------------------------------------------ *)
(** ** Mastering: the EQ bands *)

Module EqProofs.

Import Np NpFacts FlFacts Mastering SilenceProofs.

Lemma in_band_true low high f :
  inject_Z low <= f -> f <= inject_Z high -> in_band low high f = true.
Proof.
  intros L H. unfold in_band. apply andb_true_iff.
  split; now apply Qle_bool_iff.
Qed.

Lemma in_band_below low high f : f < inject_Z low -> in_band low high f = false.
Proof.
  intro L. unfold in_band. apply andb_false_iff. left.
  destruct (Qle_bool (inject_Z low) f) eqn:E; [|reflexivity].
  apply Qle_bool_iff in E. lra.
Qed.

Lemma in_band_above low high f : inject_Z high < f -> in_band low high f = false.
Proof.
  intro L. unfold in_band. apply andb_false_iff. right.
  destruct (Qle_bool f (inject_Z high)) eqn:E; [|reflexivity].
  apply Qle_bool_iff in E. lra.
Qed.

(** The loop over the bands, each one a pass over the rows, is one pass
    over the rows with the loop over the bands inside. *)
Lemma apply_bands_rows freqs bs : forall D,
  length freqs = length D ->
  apply_bands freqs bs D
  = Ok (map2 (fun f row => map (fun c => fold_left (band_step f) bs c) row) freqs D).
Proof.
  induction bs as [|b bs IH]; intros D Hl.
  - simpl. f_equal. revert freqs Hl.
    induction D as [|row D IHD]; intros [|f fs] Hl; try discriminate Hl;
      [reflexivity|].
    unfold map2 in *. simpl. rewrite map_id. f_equal. apply IHD.
    now inversion Hl.
  - destruct (apply_band_ok freqs D b Hl) as [D1 [E1 [L1 _]]].
    simpl. rewrite E1. simpl. rewrite IH by congruence. f_equal.
    destruct b as [name [low high]]. unfold apply_band in E1.
    rewrite Hl, Nat.eqb_refl in E1. apply PyFacts.Ok_inj in E1. subst D1.
    clear L1 IH. revert freqs Hl.
    induction D as [|row D IHD]; intros [|f fs] Hl; try discriminate Hl;
      [reflexivity|].
    unfold map2 in *. simpl. f_equal; [|apply IHD; now inversion Hl].
    destruct (in_band low high f); [|reflexivity].
    rewrite map_map. reflexivity.
Qed.

End EqProofs.

Module EqTheorems.

Import Np NpFacts FlFacts Mastering SilenceProofs EqProofs Fixtures.

Lemma band_gains_unfold sr f c :
  band_gains sr f c
  = let c1 := if in_band 20 60 f then scale (12 # 10) c else c in
    let c2 := if in_band 60 250 f then scale (11 # 10) c1 else c1 in
    let c3 := if in_band 250 2000 f then scale (9 # 10) c2 else c2 in
    let c4 := if in_band 2000 6000 f then scale (11 # 10) c3 else c3 in
    if in_band 6000 (sr / 2) f then scale (105 # 100) c4 else c4.
Proof. reflexivity. Qed.

Ltac band_side sr :=
  set (nyquist := inject_Z (sr / 2)) in *; unfold inject_Z; lra.

Ltac decide_band sr low high f :=
  first
    [ rewrite (in_band_true low high f) by band_side sr
    | rewrite (in_band_below low high f) by band_side sr
    | rewrite (in_band_above low high f) by band_side sr ].

Ltac band_cases sr f :=
  rewrite band_gains_unfold; cbv zeta;
  decide_band sr 20%Z 60%Z f; decide_band sr 60%Z 250%Z f;
  decide_band sr 250%Z 2000%Z f; decide_band sr 2000%Z 6000%Z f;
  decide_band sr 6000%Z (sr / 2)%Z f;
  reflexivity.

(** C5, as the code has it.  The loop multiplies every bin by the gain of
    each band whose closed interval [low, high] holds the frequency of the
    bin.  A bin strictly inside a band gets the gain of that band alone; a
    bin exactly on 60, 250, 2000 or 6000 Hz gets the gains of both bands
    that meet there, one after the other; a bin below 20 Hz or above
    [sr // 2] gets none. *)
Theorem eq_band_gains :
  forall (sr : Z) (D : list (list cplx)),
    length D = 1025%nat ->
    apply_bands (fft_frequencies sr) (bands sr) D
    = Ok (map2 (fun f row => map (band_gains sr f) row) (fft_frequencies sr) D)
    /\ forall (f : Q) (c : cplx),
        (f < 20 -> band_gains sr f c = c)
        /\ (20 <= f -> f < 60 -> band_gains sr f c = scale (12 # 10) c)
        /\ (f == 60 ->
            band_gains sr f c = scale (11 # 10) (scale (12 # 10) c))
        /\ (60 < f -> f < 250 -> band_gains sr f c = scale (11 # 10) c)
        /\ (f == 250 ->
            band_gains sr f c = scale (9 # 10) (scale (11 # 10) c))
        /\ (250 < f -> f < 2000 -> band_gains sr f c = scale (9 # 10) c)
        /\ (f == 2000 ->
            band_gains sr f c = scale (11 # 10) (scale (9 # 10) c))
        /\ (2000 < f -> f < 6000 -> band_gains sr f c = scale (11 # 10) c)
        /\ (f == 6000 -> 6000 <= inject_Z (sr / 2) ->
            band_gains sr f c = scale (105 # 100) (scale (11 # 10) c))
        /\ (f == 6000 -> inject_Z (sr / 2) < 6000 ->
            band_gains sr f c = scale (11 # 10) c)
        /\ (6000 < f -> f <= inject_Z (sr / 2) ->
            band_gains sr f c = scale (105 # 100) c)
        /\ (6000 < f -> inject_Z (sr / 2) < f -> band_gains sr f c = c).
Proof.
  intros sr D HD. split.
  - rewrite apply_bands_rows by (rewrite length_fft_frequencies; now rewrite HD).
    reflexivity.
  - intros f c.
    repeat split; intros; band_cases sr f.
Qed.

Lemma eq_band_gains_witness :
  apply_bands (fft_frequencies 16000) (bands 16000) flat_spectrum
  = Ok (map2 (fun f row => map (band_gains 16000 f) row)
             (fft_frequencies 16000) flat_spectrum)
  /\ band_gains 16000 1000 (Cplx (Fin 1) (Fin 0))
     = scale (9 # 10) (Cplx (Fin 1) (Fin 0)).
Proof.
  destruct (eq_band_gains 16000 flat_spectrum eq_refl) as [H1 H2].
  split; [exact H1|].
  destruct (H2 1000 (Cplx (Fin 1) (Fin 0))) as [_ [_ [_ [_ [_ [H _]]]]]].
  apply H; reflexivity.
Defined.

(** C5, as the specification has it, fails at 16 kHz, where bin 32 lies
    on 250 Hz: it is multiplied by 1.1 and by 0.9, which is the gain of no
    single band.  Bin 0, at 0 Hz, is multiplied by no gain at all. *)
Lemma eq_boundary_bin_two_gains :
  nth 32 (fft_frequencies 16000) 0 == 250
  /\ bin_at (apply_bands (fft_frequencies 16000) (bands 16000) flat_spectrum) 32
     = Some (scale (9 # 10) (scale (11 # 10) (Cplx (Fin 1) (Fin 0))))
  /\ ~ one_band_gain 16000 (Cplx (Fin 1) (Fin 0))
       (scale (9 # 10) (scale (11 # 10) (Cplx (Fin 1) (Fin 0))))
  /\ bin_at (apply_bands (fft_frequencies 16000) (bands 16000) flat_spectrum) 0
     = Some (Cplx (Fin 1) (Fin 0))
  /\ ~ one_band_gain 16000 (Cplx (Fin 1) (Fin 0)) (Cplx (Fin 1) (Fin 0)).
Proof.
  split; [reflexivity|].
  split; [vm_compute; reflexivity|].
  split.
  { intros [band [Hin [Hre _]]]. simpl in Hin.
    repeat (destruct Hin as [<-|Hin]; [vm_compute in Hre; discriminate Hre|]).
    exact Hin. }
  split; [vm_compute; reflexivity|].
  intros [band [Hin [Hre _]]]. simpl in Hin.
  repeat (destruct Hin as [<-|Hin]; [vm_compute in Hre; discriminate Hre|]).
  exact Hin.
Qed.

End EqTheorems.

Module SilenceWitness.

Import Np NpFacts FlFacts Mastering SilenceProofs SilenceTheorems Fixtures.





End SilenceWitness.

(* ------------------------------------------------------------------ *)
(** ** Beat synchroniser: the mix *)

Module MixProofs.

Import Np NpFacts FlFacts BeatSync.

Lemma py_max_nat_max a b : py_max_nat a b = Nat.max a b.
Proof.
  unfold py_max_nat. destruct (Nat.ltb a b) eqn:E.
  - apply Nat.ltb_lt in E. lia.
  - apply Nat.ltb_ge in E. lia.
Qed.

Lemma pad_wave l k : pad_right (wave l) k = wave (l ++ repeat 0 k).
Proof.
  unfold pad_right, wave, zeros. now rewrite map_app, map_repeat.
Qed.

Lemma padded_wave l n :
  (if Nat.ltb (length (wave l)) n then pad_right (wave l) (n - length (wave l))
   else wave l)
  = wave (l ++ repeat 0 (n - length l)).
Proof.
  unfold wave at 1 3. rewrite length_map.
  destruct (Nat.ltb (length l) n) eqn:E.
  - apply pad_wave.
  - apply Nat.ltb_ge in E. replace (n - length l)%nat with 0%nat by lia.
    simpl. now rewrite app_nil_r.
Qed.

Lemma weighted_sum_wave (gv gb : Q) (v : list Q) : forall b,
  map2 Fl.add (map (fun x => Fl.mul x (Fin gv)) (wave v))
              (map (fun x => Fl.mul x (Fin gb)) (wave b))
  = wave (map2 (fun x y => x * gv + y * gb) v b).
Proof.
  induction v as [|x v IH]; intros [|y b]; try reflexivity.
  unfold map2 in *. simpl. f_equal. apply IH.
Qed.

(** The array [mixed] of [_mix_audio] on finite waveforms. *)
Lemma mixed_wave v b :
  let max_len := py_max_nat (length (wave v)) (length (wave b)) in
  map2 Fl.add
       (map (fun x => Fl.mul x (Fin (8 # 10)))
            (if Nat.ltb (length (wave v)) max_len
             then pad_right (wave v) (max_len - length (wave v)) else wave v))
       (map (fun x => Fl.mul x (Fin (6 # 10)))
            (if Nat.ltb (length (wave b)) max_len
             then pad_right (wave b) (max_len - length (wave b)) else wave b))
  = wave (mix_sum v b).
Proof.
  intro max_len. subst max_len. rewrite !padded_wave.
  assert (Lv : length (wave v) = length v) by apply length_map.
  assert (Lb : length (wave b) = length b) by apply length_map.
  rewrite Lv, Lb, py_max_nat_max.
  exact (weighted_sum_wave _ _ _ _).
Qed.

Lemma length_map2 {A B C} (f : A -> B -> C) a b :
  length (map2 f a b) = Nat.min (length a) (length b).
Proof. unfold map2. now rewrite length_map, length_combine. Qed.

Lemma length_mix_sum v b :
  length (mix_sum v b) = Nat.max (length v) (length b).
Proof.
  unfold mix_sum. rewrite length_map2, !length_app, !repeat_length. lia.
Qed.

Lemma mix_audio_finite v b peak :
  np_max (np_abs (wave (mix_sum v b))) = Ok (Fin peak) ->
  _mix_audio (wave v) (wave b)
  = Ok (map (fun m => Fl.div (Fin m) (Fin peak)) (mix_sum v b)).
Proof.
  intro H. unfold _mix_audio, _mix_audio_gain.
  rewrite (mixed_wave v b). rewrite H. simpl. f_equal.
  unfold wave. now rewrite map_map.
Qed.

Lemma div_by_peak m peak :
  0 < peak -> Qabs m <= peak ->
  Fl.div (Fin m) (Fin peak) = Fin (m / peak) /\ Qabs (m / peak) <= 1.
Proof.
  intros Hp Hm. unfold Fl.div.
  assert (Z : Fl.is_zero peak = false).
  { apply is_zero_false. intro E. rewrite E in Hp. discriminate Hp. }
  rewrite Z. split; [reflexivity|].
  unfold Qdiv. rewrite Qabs_Qmult, Qabs_Qinv, (Qabs_pos peak) by lra.
  apply Qle_shift_div_r; [exact Hp | lra].
Qed.

Lemma div_zero_by_zero m peak :
  m == 0 -> peak == 0 -> Fl.div (Fin m) (Fin peak) = NaN.
Proof.
  intros Hm Hp. unfold Fl.div.
  assert (Z : Fl.is_zero peak = true) by now apply is_zero_true.
  rewrite Z. unfold Fl.inf_of_sign.
  assert (A : Fl.Qltb 0 m = false) by (apply Qltb_ge; lra).
  assert (B : Fl.Qltb m 0 = false) by (apply Qltb_ge; lra).
  now rewrite A, B.
Qed.

Lemma map_div_nan ms peak :
  peak == 0 -> Forall (fun m => m == 0) ms ->
  map (fun m => Fl.div (Fin m) (Fin peak)) ms = repeat NaN (length ms).
Proof.
  intros Hp. induction 1 as [|m ms Hm Hms IH]; [reflexivity|].
  cbn [map length repeat]. rewrite (div_zero_by_zero m peak Hm Hp).
  now rewrite IH.
Qed.

End MixProofs.

Module MixTheorems.

Import Np NpFacts FlFacts BeatSync MixProofs.

(** C1, as the code has it.  For finite waveforms whose summed mix is not
    silent, [_mix_audio] returns the mix divided by its largest magnitude:
    as long as the longer input, every sample finite and of magnitude at
    most 1.  The division is not guarded: when the summed mix is all-zero
    the peak is zero and every sample of the result is [0/0 = NaN], and when
    both inputs are empty [np.max] raises. *)
Theorem mix_audio_normalized :
  forall (vocals beat : list Q),
    (nonsilent (mix_sum vocals beat) ->
     exists peak out,
       np_max (np_abs (wave (mix_sum vocals beat))) = Ok (Fin peak)
       /\ 0 < peak
       /\ _mix_audio (wave vocals) (wave beat) = Ok out
       /\ out = wave (map (fun m => m / peak) (mix_sum vocals beat))
       /\ length out = Nat.max (length vocals) (length beat)
       /\ Forall (Fl.bounded 1) out)
    /\ (Forall (fun m => m == 0) (mix_sum vocals beat) ->
        mix_sum vocals beat <> [] ->
        _mix_audio (wave vocals) (wave beat)
        = Ok (repeat NaN (Nat.max (length vocals) (length beat))))
    /\ (vocals = [] -> beat = [] ->
        Py.raises (_mix_audio (wave vocals) (wave beat))).
Proof.
  intros vocals beat. split; [|split].
  - intro Hns.
    assert (Hne : mix_sum vocals beat <> []).
    { intro E. rewrite E in Hns. inversion Hns. }
    destruct (np_max_abs_wave _ Hne) as [peak [Hmax [_ [Hall _]]]].
    assert (Hp : 0 < peak) by exact (LimitingProofs.nonsilent_peak _ _ Hns Hall).
    exists peak, (wave (map (fun m => m / peak) (mix_sum vocals beat))).
    split; [exact Hmax|]. split; [exact Hp|]. split.
    { rewrite (mix_audio_finite _ _ _ Hmax). f_equal.
      unfold wave. rewrite map_map. apply map_ext_in. intros m Hm.
      rewrite Forall_forall in Hall.
      exact (proj1 (div_by_peak m peak Hp (Hall m Hm))). }
    split; [reflexivity|]. split.
    { unfold wave. now rewrite !length_map, length_mix_sum. }
    unfold wave. rewrite map_map. apply Forall_map.
    eapply Forall_impl; [|exact Hall]. intros m Hm.
    exact (proj2 (div_by_peak m peak Hp Hm)).
  - intros Hz Hne.
    destruct (np_max_abs_wave _ Hne) as [peak [Hmax [_ [_ Hex]]]].
    assert (P0 : peak == 0).
    { apply Exists_exists in Hex. destruct Hex as [a [Ha ->]].
      rewrite Forall_forall in Hz. rewrite (Hz a Ha). reflexivity. }
    rewrite (mix_audio_finite _ _ _ Hmax). f_equal.
    rewrite <- length_mix_sum. now apply map_div_nan.
  - intros -> ->. eexists. reflexivity.
Qed.

End MixTheorems.

Module MixExamples.

Import Np NpFacts FlFacts BeatSync MixProofs MixTheorems.

Lemma mix_audio_normalized_witness :
  nonsilent (mix_sum [1; -1 # 2] [1 # 2])
  /\ exists peak out,
      np_max (np_abs (wave (mix_sum [1; -1 # 2] [1 # 2]))) = Ok (Fin peak)
      /\ 0 < peak
      /\ _mix_audio (wave [1; -1 # 2]) (wave [1 # 2]) = Ok out
      /\ out = wave (map (fun m => m / peak) (mix_sum [1; -1 # 2] [1 # 2]))
      /\ length out = Nat.max 2 1
      /\ Forall (Fl.bounded 1) out.
Proof.
  assert (H : nonsilent (mix_sum [1; -1 # 2] [1 # 2])).
  { apply Exists_cons_hd. intro E. discriminate E. }
  split; [exact H|].
  exact (proj1 (mix_audio_normalized [1; -1 # 2] [1 # 2]) H).
Defined.

(** The mix of [1, -0.5] and [0.5]: the sum is [1.1, -0.4] and the result
    is [1, -4/11]. *)
Example mix_audio_example :
  exists out, _mix_audio (wave [1; -1 # 2]) (wave [1 # 2]) = Ok out
              /\ Forall2 Fl.eqv out [Fin 1; Fin (-4 # 11)].
Proof. eexists. split; [reflexivity|]. repeat constructor. Qed.

(** C1, as the specification has it, fails on a silent mix: two samples
    of silence mixed with one give [NaN, NaN], not the zero waveform. *)
Lemma mix_audio_silent_nan :
  _mix_audio (wave [0; 0]) (wave [0]) = Ok [NaN; NaN]
  /\ _mix_audio (wave [0; 0]) (wave [0]) <> Ok (zeros 2).
Proof.
  assert (E : _mix_audio (wave [0; 0]) (wave [0]) = Ok [NaN; NaN])
    by (vm_compute; reflexivity).
  split; [exact E|]. rewrite E. intro H. discriminate H.
Qed.

End MixExamples.

(* ------------------------------------------------------------------ *)
(** ** Beat synchroniser: slices and the shift of one onset *)

Module AlignProofs.

Import Np NpFacts FlFacts BeatSync.

Lemma slice_bound_le n i : (slice_bound n i <= n)%nat.
Proof. unfold slice_bound. destruct (i <? 0)%Z eqn:E; [apply Z.ltb_lt in E|]; lia. Qed.

Lemma slice_bound_pos n s : (0 <= s)%Z -> slice_bound n s = Nat.min (Z.to_nat s) n.
Proof.
  intro H. unfold slice_bound.
  destruct (s <? 0)%Z eqn:E; [apply Z.ltb_lt in E; lia | reflexivity].
Qed.

Lemma slice_bound_neg n s :
  (0 < s)%Z -> slice_bound n (- s) = (n - Z.to_nat s)%nat.
Proof.
  intro H. unfold slice_bound.
  destruct (- s <? 0)%Z eqn:E; [|apply Z.ltb_ge in E; lia]. lia.
Qed.

(** An assignment to a slice keeps the length of the array. *)
Lemma setslice_length {A} (a : list A) start stop v a' :
  setslice a start stop v = Ok a' -> length a' = length a.
Proof.
  unfold setslice.
  set (lo := slice_lo (length a) start). set (hi := slice_hi (length a) stop).
  assert (Hlo : (lo <= length a)%nat).
  { unfold lo, slice_lo. destruct start; [apply slice_bound_le | lia]. }
  assert (Hhi : (hi <= length a)%nat).
  { unfold hi, slice_hi. destruct stop; [apply slice_bound_le | lia]. }
  destruct (Nat.eqb (length v) (hi - lo)) eqn:E.
  - apply Nat.eqb_eq in E. intro H. apply PyFacts.Ok_inj in H. subst a'.
    rewrite !length_app, length_firstn, length_skipn. lia.
  - destruct v as [|x [|y v]]; try discriminate.
    intro H. apply PyFacts.Ok_inj in H. subst a'.
    rewrite !length_app, length_firstn, length_skipn, repeat_length. lia.
Qed.

(** [out[s:] = audio[:-s]] with [s > 0]: the waveform, [s] samples later. *)
Lemma setslice_later (audio out : list fval) (s : Z) :
  (0 < s)%Z -> length out = length audio ->
  setslice out (Some s) None (getslice audio None (Some (- s)%Z))
  = Ok (firstn (Z.to_nat s) out ++ firstn (length audio - Z.to_nat s) audio).
Proof.
  intros Hs Hl. unfold setslice, getslice. cbn [slice_lo slice_hi].
  rewrite slice_bound_neg by exact Hs. rewrite slice_bound_pos by lia.
  rewrite Nat.sub_0_r, skipn_O.
  rewrite length_firstn, Hl.
  set (n := length audio) in *. set (k := Z.to_nat s).
  replace (Nat.min (n - k) n) with (n - k)%nat by lia.
  replace (n - Nat.min k n)%nat with (n - k)%nat by lia.
  rewrite Nat.eqb_refl. f_equal.
  replace (Nat.min k n + (n - k))%nat with n by lia.
  rewrite <- Hl at 3. rewrite skipn_all, app_nil_r.
  f_equal. destruct (Nat.le_gt_cases k n) as [L|L].
  - now replace (Nat.min k n) with k by lia.
  - replace (Nat.min k n) with n by lia.
    rewrite <- Hl, !firstn_all2 by lia. reflexivity.
Qed.

(** [out[:-s] = audio[s:]] with [s > 0]: the waveform, [s] samples
    earlier. *)
Lemma setslice_earlier (audio out : list fval) (s : Z) :
  (0 < s)%Z -> length out = length audio ->
  setslice out None (Some (- s)%Z) (getslice audio (Some s) None)
  = Ok (skipn (Z.to_nat s) audio ++ skipn (length audio - Z.to_nat s) out).
Proof.
  intros Hs Hl. unfold setslice, getslice. cbn [slice_lo slice_hi].
  rewrite slice_bound_neg by exact Hs. rewrite slice_bound_pos by lia.
  rewrite Hl, Nat.sub_0_r, length_firstn, length_skipn.
  set (n := length audio) in *. set (k := Z.to_nat s).
  replace (Nat.min (n - Nat.min k n) (n - Nat.min k n)) with (n - k)%nat by lia.
  rewrite Nat.eqb_refl. cbn [firstn app]. f_equal. f_equal.
  rewrite firstn_all2 by (rewrite length_skipn; fold n; lia).
  destruct (Nat.le_gt_cases k n) as [L|L].
  - now replace (Nat.min k n) with k by lia.
  - replace (Nat.min k n) with n by lia.
    unfold n. rewrite skipn_all. symmetry. apply skipn_all2. lia.
Qed.

(** [out[0:] = audio[:-0]]: an empty array into the whole buffer. *)
Lemma setslice_later_zero (audio out : list fval) :
  length out = length audio -> (1 <= length audio)%nat ->
  Py.raises (setslice out (Some 0%Z) None (getslice audio None (Some (- 0)%Z))).
Proof.
  intros Hl Hn. unfold setslice, getslice. cbn [slice_lo slice_hi].
  change (- 0)%Z with 0%Z. rewrite !slice_bound_pos by lia.
  cbn [Z.to_nat Nat.min Nat.sub firstn length].
  rewrite Nat.sub_0_r.
  destruct (Nat.eqb 0 (length out)) eqn:E; [apply Nat.eqb_eq in E; lia|].
  eexists. reflexivity.
Qed.

(** [out[:-0] = audio[0:]]: the whole waveform into an empty slice. *)
Lemma setslice_earlier_zero (audio out : list fval) :
  length out = length audio -> (2 <= length audio)%nat ->
  Py.raises (setslice out None (Some (- 0)%Z) (getslice audio (Some 0%Z) None)).
Proof.
  intros Hl Hn. unfold setslice, getslice. cbn [slice_lo slice_hi].
  change (- 0)%Z with 0%Z. rewrite !slice_bound_pos by lia.
  cbn [Z.to_nat Nat.min Nat.sub]. rewrite Nat.sub_0_r, skipn_O, firstn_all.
  destruct audio as [|x [|y audio]]; simpl in Hn; try lia.
  eexists. reflexivity.
Qed.

End AlignProofs.

Module AlignSteps.

Import Np NpFacts FlFacts BeatSync AlignProofs.

Lemma shift_onset_unfold audio sr beat_times out onset_time :
  shift_onset audio sr beat_times out onset_time
  = (d <- onset_offset beat_times onset_time ;;
     s <- shift_samples_of sr d ;;
     if (0 <? d)%float
     then setslice out (Some s) None (getslice audio None (Some (- s)%Z))
     else setslice out None (Some (- s)%Z) (getslice audio (Some s) None)).
Proof.
  unfold shift_onset, onset_offset, shift_samples_of.
  destruct (argmin _) as [i|e]; [|reflexivity]. cbn [Py.bind].
  destruct (0 <? _)%float; reflexivity.
Qed.

(** A shift by at least one sample: what the turn of the loop returns. *)
Lemma shift_onset_moves audio sr beat_times out onset_time d s :
  length out = length audio ->
  onset_offset beat_times onset_time = Ok d ->
  shift_samples_of sr d = Ok s ->
  (0 < s)%Z ->
  let k := Z.to_nat s in
  shift_onset audio sr beat_times out onset_time
  = Ok (if (0 <? d)%float
        then firstn k out ++ firstn (length audio - k) audio
        else skipn k audio ++ skipn (length audio - k) out).
Proof.
  intros Hl Hd Hs Hpos k. rewrite shift_onset_unfold, Hd. cbn [Py.bind].
  rewrite Hs. cbn [Py.bind].
  destruct (0 <? d)%float.
  - now apply setslice_later.
  - now apply setslice_earlier.
Qed.

(** A shift by zero samples raises on a waveform of two samples or more. *)
Lemma shift_onset_zero audio sr beat_times out onset_time d :
  length out = length audio -> (2 <= length audio)%nat ->
  onset_offset beat_times onset_time = Ok d ->
  shift_samples_of sr d = Ok 0%Z ->
  Py.raises (shift_onset audio sr beat_times out onset_time).
Proof.
  intros Hl Hn Hd Hs. rewrite shift_onset_unfold, Hd. cbn [Py.bind].
  rewrite Hs. cbn [Py.bind].
  destruct (0 <? d)%float.
  - apply setslice_later_zero; [exact Hl | lia].
  - now apply setslice_earlier_zero.
Qed.

Lemma shift_onset_length audio sr beat_times out onset_time out' :
  shift_onset audio sr beat_times out onset_time = Ok out' ->
  length out' = length out.
Proof.
  rewrite shift_onset_unfold. intro H.
  apply PyFacts.bind_ok in H. destruct H as [d [_ H]].
  apply PyFacts.bind_ok in H. destruct H as [k [_ H]].
  destruct (0 <? d)%float; eapply setslice_length; exact H.
Qed.

Lemma align_onsets_length audio sr beat_times onsets : forall out out',
  align_onsets audio sr beat_times onsets out = Ok out' ->
  length out' = length out.
Proof.
  induction onsets as [|o rest IH]; intros out out' H; simpl in H.
  - apply PyFacts.Ok_inj in H. now subst.
  - apply PyFacts.bind_ok in H. destruct H as [o1 [H1 H2]].
    rewrite (IH _ _ H2). eapply shift_onset_length; exact H1.
Qed.

(** The loop, turn by turn: the onsets before the last, then the last on
    what they left. *)
Lemma align_onsets_snoc audio sr beat_times onsets last : forall out,
  align_onsets audio sr beat_times (onsets ++ [last]) out
  = (o <- align_onsets audio sr beat_times onsets out ;;
     shift_onset audio sr beat_times o last).
Proof.
  induction onsets as [|o rest IH]; intro out; simpl.
  - destruct (shift_onset audio sr beat_times out last); reflexivity.
  - destruct (shift_onset audio sr beat_times out o); simpl; [apply IH | reflexivity].
Qed.

(** Once a turn raises, the loop raises. *)
Lemma align_onsets_raises audio sr beat_times onsets onset :
  In onset onsets ->
  (forall out, length out = length audio ->
               Py.raises (shift_onset audio sr beat_times out onset)) ->
  forall out, length out = length audio ->
              Py.raises (align_onsets audio sr beat_times onsets out).
Proof.
  intros Hin Hr. induction onsets as [|o rest IH]; [contradiction|].
  intros out Hl. simpl.
  destruct (shift_onset audio sr beat_times out o) as [out1|e] eqn:E;
    [|eexists; reflexivity].
  simpl. destruct Hin as [->|Hin].
  - destruct (Hr out Hl) as [e He]. congruence.
  - apply IH; [exact Hin|].
    rewrite (shift_onset_length _ _ _ _ _ _ E). exact Hl.
Qed.

(** Every turn but one of zero shift moves the whole waveform: for a
    positive offset [out[k:] = audio[:n-k]], otherwise
    [out[:n-k] = audio[k:]], sample by sample. *)
Lemma shift_onset_samples audio sr beat_times out onset_time d s :
  length out = length audio ->
  onset_offset beat_times onset_time = Ok d ->
  shift_samples_of sr d = Ok s ->
  (0 < s)%Z ->
  let n := length audio in
  let k := Z.to_nat s in
  exists out',
    shift_onset audio sr beat_times out onset_time = Ok out'
    /\ length out' = n
    /\ ((0 <? d)%float = true ->
        (forall p, (p < k)%nat -> (p < n)%nat -> nth p out' NaN = nth p out NaN)
        /\ (forall p, (k <= p < n)%nat -> nth p out' NaN = nth (p - k) audio NaN))
    /\ ((0 <? d)%float = false ->
        (forall p, (p + k < n)%nat -> nth p out' NaN = nth (p + k) audio NaN)
        /\ (forall p, (n - k <= p < n)%nat -> nth p out' NaN = nth p out NaN)).
Proof.
  intros Hl Hd Hs Hpos n k.
  assert (E := shift_onset_moves audio sr beat_times out onset_time d s Hl Hd Hs Hpos).
  cbv zeta in E. fold k in E. fold n in E.
  eexists. split; [exact E|].
  split; [rewrite (shift_onset_length _ _ _ _ _ _ E); exact Hl|].
  fold n in Hl. split.
  - intro Hb. rewrite Hb. split.
    + intros p Hp Hn. rewrite app_nth1 by (rewrite length_firstn; lia).
      now apply nth_firstn.
    + intros p [Hk Hn].
      rewrite app_nth2 by (rewrite length_firstn; lia).
      rewrite length_firstn. replace (Nat.min k (length out)) with k by lia.
      apply nth_firstn. lia.
  - intro Hb. rewrite Hb. split.
    + intros p Hp. rewrite app_nth1 by (rewrite length_skipn; fold n; lia).
      rewrite nth_skipn. f_equal. lia.
    + intros p [Hk Hn]. rewrite app_nth2 by (rewrite length_skipn; fold n; lia).
      rewrite length_skipn, nth_skipn. fold n. f_equal. lia.
Qed.

End AlignSteps.

(* ------------------------------------------------------------------ *)
(** ** Beat synchroniser: grid alignment *)

Module AlignTheorems.

Import Np NpFacts FlFacts BeatSync AlignProofs AlignSteps Fixtures.

(** C2.  The claim holds of what the source announces ([# Shift audio
    segment]) and fails of what it does: a turn of the loop moves the whole
    waveform, not the segment of its onset.  On 2048 samples at 22050 Hz,
    with the beat at frame 3 and onsets at frames 2 and 4 (hop 512), the
    offset of the first onset is positive and its product with the sample
    rate is 511.99999999999994 in binary64, so the shift is 511 samples.
    The turn writes [out[511:] = audio[:-511]]: sample 0 of the waveform,
    which lies before the onset at sample 1024, lands on position 511,
    outside the segment the onset moves.  The second onset then moves the
    whole waveform 512 samples earlier, and of the first turn only the
    last 512 samples are left. *)
Theorem align_moves_whole_waveform :
  let audio := wave (ramp 2048) in
  let lib := librosa_with_beats (ramp 2048) [3%Z] [2%Z; 4%Z] in
  let beat_times := hop_times [3%Z] 22050 in
  let onset := nth 0 (hop_times [2%Z; 4%Z] 22050) 0%float in
  let out1 := zeros 511 ++ firstn 1537 audio in
  (exists d, onset_offset beat_times onset = Ok d
             /\ (0 <? d)%float = true
             /\ (d * Fl.float_of_int 22050 <? 512)%float = true
             /\ shift_samples_of 22050 d = Ok 511%Z)
  /\ shift_onset audio 22050 beat_times (zeros 2048) onset = Ok out1
  /\ in_shifted_segment (spec_segment 2048 [1024; 2048]%nat 0) 511 511 = false
  /\ nth 511 (zeros 2048) NaN = Fin 0
  /\ nth 511 out1 NaN = Fin (1 # 4096)
  /\ ~ writes_only_segment (spec_segment 2048 [1024; 2048]%nat 0) 511
       (zeros 2048) out1
  /\ _align_to_grid lib audio 22050 beat_times
     = Ok (skipn 512 audio ++ firstn 512 (skipn 1025 audio)).
Proof.
  cbv zeta.
  assert (N : nth 511 (zeros 511 ++ firstn 1537 (wave (ramp 2048))) NaN
              = Fin (1 # 4096)) by (vm_compute; reflexivity).
  split.
  { eexists. split; [vm_compute; reflexivity|].
    repeat split; vm_compute; reflexivity. }
  split; [vm_compute; reflexivity|].
  split; [vm_compute; reflexivity|].
  split; [vm_compute; reflexivity|].
  split; [exact N|].
  split; [|vm_compute; reflexivity].
  intro H. specialize (H 511%nat eq_refl). rewrite N in H.
  vm_compute in H. discriminate H.
Qed.

End AlignTheorems.

(* ------------------------------------------------------------------ *)
(** ** Beat synchroniser: failures *)

Module SyncTheorems.

Import Np NpFacts FlFacts BeatSync AlignProofs AlignSteps Fixtures.

Lemma sync_body_raises lib w vocals_path beat_url :
  Py.raises (sync_body lib w vocals_path beat_url) ->
  sync_to_beat lib w vocals_path beat_url = Ok vocals_path.
Proof. intros [e He]. unfold sync_to_beat. now rewrite He. Qed.

Lemma download_not_200 w url status body :
  http_get w url = Ok (status, body) -> status <> 200%Z ->
  _download_beat w url = Raise (Exception "Failed to download beat").
Proof.
  intros Hget Hs. unfold _download_beat. rewrite Hget. simpl.
  apply Z.eqb_neq in Hs. now rewrite Hs.
Qed.

(** C3.  [sync_to_beat] always returns a path and raises nothing: the
    output path when every step of the body returned, the vocals path it
    was given when any step raised.  So it is when loading the vocals
    raises, when the download raises, and when the download answers with a
    status other than 200, which [_download_beat] turns into an exception. *)
Theorem sync_to_beat_never_raises :
  forall (lib : Librosa) (w : World) (vocals_path beat_url : string),
    (exists p, sync_to_beat lib w vocals_path beat_url = Ok p)
    /\ (forall e, sync_body lib w vocals_path beat_url = Raise e ->
                  sync_to_beat lib w vocals_path beat_url = Ok vocals_path)
    /\ (forall p, sync_body lib w vocals_path beat_url = Ok p ->
                  p = output_path
                  /\ sync_to_beat lib w vocals_path beat_url = Ok output_path)
    /\ (Py.raises (load lib vocals_path) ->
        sync_to_beat lib w vocals_path beat_url = Ok vocals_path)
    /\ (Py.raises (_download_beat w beat_url) ->
        sync_to_beat lib w vocals_path beat_url = Ok vocals_path)
    /\ (forall status body,
           http_get w beat_url = Ok (status, body) -> status <> 200%Z ->
           Py.raises (_download_beat w beat_url)
           /\ sync_to_beat lib w vocals_path beat_url = Ok vocals_path).
Proof.
  intros lib w vocals_path beat_url.
  assert (Hload : Py.raises (load lib vocals_path) ->
                  sync_to_beat lib w vocals_path beat_url = Ok vocals_path).
  { intros [e He]. apply sync_body_raises. exists e.
    unfold sync_body. now rewrite He. }
  assert (Hdown : Py.raises (_download_beat w beat_url) ->
                  sync_to_beat lib w vocals_path beat_url = Ok vocals_path).
  { intros [e He]. apply sync_body_raises. unfold sync_body.
    destruct (load lib vocals_path) as [[vocals vocals_sr]|e0];
      [|eexists; reflexivity].
    simpl. rewrite He. eexists. reflexivity. }
  split; [|split; [|split; [|split; [|split]]]].
  - unfold sync_to_beat. destruct (sync_body lib w vocals_path beat_url); eauto.
  - intros e He. apply sync_body_raises. now exists e.
  - intros p Hp. assert (Hout : p = output_path).
    { unfold sync_body in Hp.
      repeat (apply PyFacts.bind_ok in Hp; destruct Hp as [? [_ Hp]];
              try match type of Hp with
                  | context [let '(_, _) := ?x in _] => destruct x
                  end).
      apply PyFacts.Ok_inj in Hp. now symmetry. }
    split; [exact Hout|]. unfold sync_to_beat. rewrite Hp. now rewrite Hout.
  - exact Hload.
  - exact Hdown.
  - intros status body Hget Hs.
    assert (R : Py.raises (_download_beat w beat_url)).
    { eexists. eapply download_not_200; eassumption. }
    split; [exact R | exact (Hdown R)].
Qed.

(** The download answers 404: the vocals path comes back. *)
Lemma sync_to_beat_never_raises_witness :
  sync_to_beat (librosa_with [1 # 2; -1 # 4] [] [Fin 0])
               (world_with 404 (Arr1 []) 22050) "vocals.wav" "http://beat"
  = Ok "vocals.wav"%string.
Proof.
  apply (sync_to_beat_never_raises
           (librosa_with [1 # 2; -1 # 4] [] [Fin 0])
           (world_with 404 (Arr1 []) 22050) "vocals.wav" "http://beat")
    with (status := 404%Z) (body := "beat"%string).
  - reflexivity.
  - discriminate.
Defined.

End SyncTheorems.

Module ZeroShift.

Import Np NpFacts FlFacts BeatSync AlignProofs AlignSteps SyncTheorems Fixtures.

Lemma align_to_grid_raises lib audio sr beat_times
      onset_env onset_frames onset_times onset_time d :
  onset_strength lib audio sr = Ok onset_env ->
  onset_detect lib onset_env sr = Ok onset_frames ->
  frames_to_time lib onset_frames sr = Ok onset_times ->
  In onset_time onset_times ->
  onset_offset beat_times onset_time = Ok d ->
  shift_samples_of sr d = Ok 0%Z ->
  (2 <= length audio)%nat ->
  Py.raises (_align_to_grid lib audio sr beat_times).
Proof.
  intros H1 H2 H3 Hin Hd Hs Hn. unfold _align_to_grid.
  rewrite H1. simpl. rewrite H2. simpl. rewrite H3. simpl.
  apply (align_onsets_raises audio sr beat_times onset_times onset_time Hin).
  - intros out Hl. eapply shift_onset_zero; eassumption.
  - unfold zeros_like. apply length_zeros.
Qed.

(** C10.  Let the steps of [sync_to_beat] before the alignment return,
    and let the offset of a detected onset to its nearest beat, times the
    sample rate, be cut to zero samples by [int] (the product is computed
    in binary64).  On the vocals, which have two samples or more, the turn
    of that onset raises: for an offset that is not positive, as for an
    onset on its beat, it assigns the whole waveform to the empty slice
    [out_audio[:-0]]; for a positive one it assigns the empty array
    [audio[:-0]] to the whole buffer.  [_align_to_grid] raises, the
    handler of [sync_to_beat] catches it, and the vocals path comes
    back. *)
Theorem zero_shift_degrades :
  forall (lib : Librosa) (w : World) (vocals_path beat_url beat_path : string)
         (vocals beat stretched onset_env : list fval) (vocals_sr beat_sr : Z)
         (beat_tempo : fval) (beat_frames onset_frames : list Z)
         (beat_times onset_times : list float) (onset_time d : float),
    load lib vocals_path = Ok (vocals, vocals_sr) ->
    _download_beat w beat_url = Ok beat_path ->
    load lib beat_path = Ok (beat, beat_sr) ->
    beat_track lib beat beat_sr = Ok (beat_tempo, beat_frames) ->
    frames_to_time lib beat_frames beat_sr = Ok beat_times ->
    _time_stretch_to_tempo lib vocals vocals_sr beat_tempo = Ok stretched ->
    onset_strength lib stretched vocals_sr = Ok onset_env ->
    onset_detect lib onset_env vocals_sr = Ok onset_frames ->
    frames_to_time lib onset_frames vocals_sr = Ok onset_times ->
    In onset_time onset_times ->
    onset_offset beat_times onset_time = Ok d ->
    shift_samples_of vocals_sr d = Ok 0%Z ->
    (2 <= length stretched)%nat ->
    (forall out, length out = length stretched ->
                 Py.raises (shift_onset stretched vocals_sr beat_times out onset_time))
    /\ ((0 <? d)%float = false ->
        length (getslice stretched (Some 0%Z) None) = length stretched
        /\ length (getslice (zeros_like stretched) None (Some (- 0)%Z)) = 0%nat)
    /\ ((0 <? d)%float = true ->
        length (getslice stretched None (Some (- 0)%Z)) = 0%nat
        /\ length (getslice (zeros_like stretched) (Some 0%Z) None)
           = length stretched)
    /\ Py.raises (_align_to_grid lib stretched vocals_sr beat_times)
    /\ sync_to_beat lib w vocals_path beat_url = Ok vocals_path.
Proof.
  intros lib w vocals_path beat_url beat_path vocals beat stretched onset_env
         vocals_sr beat_sr beat_tempo beat_frames onset_frames beat_times
         onset_times onset_time d
         Hv Hdl Hb Hbt Hft Hst Hos Hod Hot Hin Hd Hs Hn.
  assert (R : Py.raises (_align_to_grid lib stretched vocals_sr beat_times)).
  { eapply align_to_grid_raises; eassumption. }
  split; [intros out Hl; eapply shift_onset_zero; eassumption|].
  assert (Whole : forall A (a : list A),
             length (getslice a (Some 0%Z) None) = length a).
  { intros A a. unfold getslice. cbn [slice_lo slice_hi].
    rewrite slice_bound_pos by lia. cbn [Z.to_nat Nat.min].
    now rewrite Nat.sub_0_r, skipn_O, firstn_all. }
  assert (Empty : forall A (a : list A),
             length (getslice a None (Some (- 0)%Z)) = 0%nat).
  { intros A a. reflexivity. }
  split; [intros _; split; [apply Whole | apply Empty]|].
  split.
  { intros _. split; [apply Empty|].
    rewrite Whole. unfold zeros_like. apply length_zeros. }
  split; [exact R|].
  apply sync_body_raises. destruct R as [e He]. exists e.
  unfold sync_body. rewrite Hv. simpl. rewrite Hdl. simpl. rewrite Hb. simpl.
  rewrite Hbt. simpl. rewrite Hft. simpl. rewrite Hst. simpl. rewrite He.
  reflexivity.
Qed.

End ZeroShift.

Module ZeroShiftExamples.

Import Np NpFacts FlFacts BeatSync AlignProofs AlignSteps SyncTheorems ZeroShift.
Import Fixtures.

(** 2048 samples at 22050 Hz, beats at frames 2 and 45, an onset detected
    at frame 2: the onset is on its beat, the offset is zero, and the
    vocals path comes back. *)
Lemma zero_shift_degrades_witness :
  let lib := librosa_with_beats (ramp 2048) [2; 45]%Z [2%Z] in
  let w := world_with 200 (Arr1 []) 22050 in
  let beat_times := hop_times [2; 45]%Z 22050 in
  let onset_time := nth 0 (hop_times [2%Z] 22050) 0%float in
  onset_offset beat_times onset_time = Ok 0%float
  /\ shift_samples_of 22050 0%float = Ok 0%Z
  /\ length (getslice (wave (ramp 2048)) (Some 0%Z) None) = 2048%nat
  /\ length (getslice (zeros_like (wave (ramp 2048))) None (Some (- 0)%Z)) = 0%nat
  /\ Py.raises (_align_to_grid lib (wave (ramp 2048)) 22050 beat_times)
  /\ sync_to_beat lib w "vocals.wav" "http://beat" = Ok "vocals.wav"%string.
Proof.
  intros lib w beat_times onset_time.
  assert (Hd : onset_offset beat_times onset_time = Ok 0%float)
    by (vm_compute; reflexivity).
  assert (Hs : shift_samples_of 22050 0%float = Ok 0%Z)
    by (vm_compute; reflexivity).
  assert (Hn : (2 <= length (wave (ramp 2048)))%nat) by (vm_compute; lia).
  split; [exact Hd|]. split; [exact Hs|].
  destruct (zero_shift_degrades lib w "vocals.wav" "http://beat" "/tmp/beat.mp3"
       (wave (ramp 2048)) (wave (ramp 2048)) (wave (ramp 2048))
       (wave (ramp 2048)) 22050 22050 (Fin 120) [2; 45]%Z [2%Z]
       beat_times [onset_time] onset_time 0%float
       eq_refl eq_refl eq_refl eq_refl eq_refl eq_refl eq_refl eq_refl eq_refl
       (or_introl eq_refl) Hd Hs Hn)
    as [_ [Hneg [_ [R S]]]].
  destruct (Hneg eq_refl) as [L1 L2].
  split; [rewrite L1; vm_compute; reflexivity|].
  split; [exact L2|]. split; [exact R | exact S].
Defined.

End ZeroShiftExamples.

(* ================================================================== *)
(** * Further properties of the beat synchroniser *)

Module BeatSyncExtras.

Import Np NpFacts FlFacts BeatSync MixProofs AlignProofs AlignSteps SyncTheorems.
Import Fixtures.

Lemma padded_length (a : list fval) (m : nat) :
  (length a <= m)%nat ->
  length (if Nat.ltb (length a) m then pad_right a (m - length a) else a) = m.
Proof.
  intro H. destruct (Nat.ltb (length a) m) eqn:E.
  - unfold pad_right. rewrite length_app, length_zeros. lia.
  - apply Nat.ltb_ge in E. lia.
Qed.

Lemma np_max_nonempty (a : list fval) :
  a <> [] -> exists peak, np_max a = Ok peak.
Proof. destruct a; [congruence | eexists; reflexivity]. Qed.

Lemma mix_audio_returns (vocals beat : list fval) :
  (0 < Nat.max (length vocals) (length beat))%nat ->
  exists out, _mix_audio vocals beat = Ok out
              /\ length out = Nat.max (length vocals) (length beat).
Proof.
  intro Hpos. unfold _mix_audio, _mix_audio_gain. rewrite py_max_nat_max.
  set (m := Nat.max (length vocals) (length beat)) in *.
  set (V := if Nat.ltb (length vocals) m then _ else _).
  set (B := if Nat.ltb (length beat) m then _ else _).
  assert (LV : length V = m) by (apply padded_length; lia).
  assert (LB : length B = m) by (apply padded_length; lia).
  set (mixed := map2 Fl.add _ _).
  assert (LM : length mixed = m).
  { unfold mixed. rewrite length_map2, !length_map. lia. }
  destruct (np_max_nonempty (np_abs mixed)) as [peak Hp].
  { intro E. apply (f_equal (@length fval)) in E.
    unfold np_abs in E. rewrite length_map, LM in E. simpl in E. lia. }
  rewrite Hp. simpl. eexists. split; [reflexivity|].
  now rewrite length_map.
Qed.

(** X1.  [_mix_audio] on any two waveforms, also with samples that are not
    finite: it raises exactly when both are empty, and otherwise returns a
    waveform as long as the longer of the two. *)
Theorem mix_audio_length :
  forall vocals beat : list fval,
    (vocals = [] /\ beat = [] /\ Py.raises (_mix_audio vocals beat))
    \/ ((vocals <> [] \/ beat <> [])
        /\ exists out, _mix_audio vocals beat = Ok out
                       /\ length out = Nat.max (length vocals) (length beat)).
Proof.
  intros vocals beat.
  destruct vocals as [|v vs], beat as [|b bs].
  - left. repeat split. eexists. reflexivity.
  - right. split; [right; discriminate|]. apply mix_audio_returns. simpl. lia.
  - right. split; [left; discriminate|]. apply mix_audio_returns. simpl. lia.
  - right. split; [left; discriminate|]. apply mix_audio_returns. simpl. lia.
Qed.

End BeatSyncExtras.

Module AlignExtras.

Import Np NpFacts FlFacts BeatSync MixProofs AlignProofs AlignSteps SyncTheorems.
Import Fixtures.

Lemma Forall_firstn_keep {A} (P : A -> Prop) n (l : list A) :
  Forall P l -> Forall P (firstn n l).
Proof.
  intro H. rewrite <- (firstn_skipn n l) in H. now apply Forall_app in H.
Qed.

Lemma Forall_skipn_keep {A} (P : A -> Prop) n (l : list A) :
  Forall P l -> Forall P (skipn n l).
Proof.
  intro H. rewrite <- (firstn_skipn n l) in H. now apply Forall_app in H.
Qed.

Lemma getslice_forall {A} (P : A -> Prop) (a : list A) start stop :
  Forall P a -> Forall P (getslice a start stop).
Proof.
  intro H. unfold getslice. now apply Forall_firstn_keep, Forall_skipn_keep.
Qed.

(** What a slice assignment leaves in the array was in the array or in the
    assigned value. *)
Lemma setslice_forall {A} (P : A -> Prop) (a v a' : list A) start stop :
  Forall P a -> Forall P v -> setslice a start stop v = Ok a' -> Forall P a'.
Proof.
  intros Ha Hv. unfold setslice.
  destruct (Nat.eqb (length v) _).
  - intro H. apply PyFacts.Ok_inj in H. subst a'.
    repeat (apply Forall_app; split);
      auto using Forall_firstn_keep, Forall_skipn_keep.
  - destruct v as [|x [|y v]]; try discriminate.
    intro H. apply PyFacts.Ok_inj in H. subst a'.
    repeat (apply Forall_app; split);
      auto using Forall_firstn_keep, Forall_skipn_keep.
    apply Forall_forall. intros z Hz. apply repeat_spec in Hz. subst z.
    now inversion Hv.
Qed.

Lemma shift_onset_forall (P : fval -> Prop) audio sr beat_times out onset out' :
  Forall P audio -> Forall P out ->
  shift_onset audio sr beat_times out onset = Ok out' -> Forall P out'.
Proof.
  intros Ha Ho H. unfold shift_onset in H. apply PyFacts.bind_ok in H.
  destruct H as [i [_ H]]. cbv zeta in H.
  destruct (0 <? _)%float;
    apply PyFacts.bind_ok in H; destruct H as [k [_ H]];
    (eapply setslice_forall; [exact Ho | | exact H]); now apply getslice_forall.
Qed.

Lemma align_onsets_forall (P : fval -> Prop) audio sr beat_times onsets :
  Forall P audio ->
  forall out out', Forall P out ->
    align_onsets audio sr beat_times onsets out = Ok out' -> Forall P out'.
Proof.
  intro Ha. induction onsets as [|o rest IH]; intros out out' Ho H; simpl in H.
  - apply PyFacts.Ok_inj in H. now subst.
  - apply PyFacts.bind_ok in H. destruct H as [o1 [H1 H2]].
    eapply IH; [|exact H2].
    exact (shift_onset_forall P _ _ _ _ _ _ Ha Ho H1).
Qed.

(** X2.  Whenever [_align_to_grid] returns, the waveform it returns is as long
    as the one it was given, and each of its samples is zero or one of the
    samples it was given: alignment moves samples and drops them, and makes
    none. *)
Theorem align_to_grid_keeps_samples :
  forall (lib : Librosa) (audio : list fval) (sr : Z) (beat_times : list float)
         (out : list fval),
    _align_to_grid lib audio sr beat_times = Ok out ->
    length out = length audio
    /\ Forall (fun o => o = Fl.zero \/ In o audio) out.
Proof.
  intros lib audio sr beat_times out H. unfold _align_to_grid in H.
  apply PyFacts.bind_ok in H. destruct H as [env [_ H]].
  apply PyFacts.bind_ok in H. destruct H as [frames [_ H]].
  apply PyFacts.bind_ok in H. destruct H as [times [_ H]].
  cbv zeta in H. split.
  - rewrite (align_onsets_length _ _ _ _ _ _ H).
    unfold zeros_like. apply length_zeros.
  - eapply (align_onsets_forall (fun o => o = Fl.zero \/ In o audio));
      [| |exact H].
    + apply Forall_forall. intros x Hx. now right.
    + apply Forall_forall. intros x Hx. left.
      unfold zeros_like, zeros in Hx. now apply repeat_spec in Hx.
Qed.

Lemma align_to_grid_keeps_samples_witness :
  let audio := wave (ramp 1024) in
  exists out,
    _align_to_grid (librosa_with [] [1%Z] []) audio 22050
                   (hop_times [2%Z] 22050) = Ok out
    /\ length out = length audio
    /\ Forall (fun o => o = Fl.zero \/ In o audio) out.
Proof.
  intro audio.
  eassert (H : _align_to_grid (librosa_with [] [1%Z] []) audio 22050
                              (hop_times [2%Z] 22050) = Ok _)
    by (vm_compute; reflexivity).
  eexists. split; [exact H|].
  exact (align_to_grid_keeps_samples _ _ _ _ _ H).
Defined.

Lemma zeros_wave n : zeros n = wave (repeat 0 n).
Proof. unfold zeros, wave, Fl.zero. now rewrite map_repeat. Qed.

Lemma mix_sum_silent_vocals (n : nat) (beat : list Q) :
  Forall2 (fun m b => m == b * (6 # 10))
          (mix_sum (repeat 0 n) beat)
          (beat ++ repeat 0 (n - length beat)).
Proof.
  unfold mix_sum. rewrite repeat_length, <- repeat_app.
  replace (n + (Nat.max n (length beat) - n))%nat
    with (Nat.max n (length beat)) by lia.
  replace (Nat.max n (length beat) - length beat)%nat
    with (n - length beat)%nat by lia.
  assert (L : length (beat ++ repeat 0 (n - length beat))
              = Nat.max n (length beat)).
  { rewrite length_app, repeat_length. lia. }
  revert L. generalize (beat ++ repeat 0 (n - length beat)).
  generalize (Nat.max n (length beat)).
  intros m l. revert m. induction l as [|b l IH]; intros [|m] L;
    try discriminate L; [constructor|].
  unfold map2 in *. simpl. constructor; [ring | apply IH; now inversion L].
Qed.

(** X3.  When librosa detects no onset in the vocals, [_align_to_grid] returns
    silence of the length of the vocals: the loop never runs and the all-zero
    buffer comes back.  The sum that [_mix_audio] then normalises is the
    beat times 0.6, padded to the longer length; the vocals are not in it. *)
Theorem align_no_onsets_silence :
  forall (lib : Librosa) (audio onset_env : list fval) (sr : Z)
         (beat_times : list float) (onset_frames : list Z),
    onset_strength lib audio sr = Ok onset_env ->
    onset_detect lib onset_env sr = Ok onset_frames ->
    frames_to_time lib onset_frames sr = Ok [] ->
    _align_to_grid lib audio sr beat_times = Ok (zeros (length audio))
    /\ zeros (length audio) = wave (repeat 0 (length audio))
    /\ forall beat : list Q,
        Forall2 (fun m b => m == b * (6 # 10))
                (mix_sum (repeat 0 (length audio)) beat)
                (beat ++ repeat 0 (length audio - length beat)).
Proof.
  intros lib audio env sr beat_times frames H1 H2 H3. split; [|split].
  - unfold _align_to_grid. rewrite H1. simpl. rewrite H2. simpl.
    rewrite H3. reflexivity.
  - apply zeros_wave.
  - intro beat. apply mix_sum_silent_vocals.
Qed.

Lemma align_no_onsets_silence_witness :
  _align_to_grid (librosa_with [] [] []) ramp8 22050 (hop_times [0; 43]%Z 22050)
  = Ok (zeros 8)
  /\ Forall2 (fun m b => m == b * (6 # 10))
             (mix_sum (repeat 0 8) [1 # 2; -1]) ([1 # 2; -1] ++ repeat 0 6).
Proof.
  destruct (align_no_onsets_silence (librosa_with [] [] []) ramp8 ramp8 22050
              (hop_times [0; 43]%Z 22050) [] eq_refl eq_refl eq_refl)
    as [H1 [_ H3]].
  split; [exact H1 | exact (H3 [1 # 2; -1])].
Defined.

End AlignExtras.

Module AlignEdges.

Import Np NpFacts FlFacts BeatSync MixProofs AlignProofs AlignSteps SyncTheorems.
Import Fixtures.

(** X4.  An onset whose shift, as the code computes it, is at least the
    length of the waveform changes nothing: both slices are empty, nothing
    is raised and the buffer stays as it was. *)
Theorem shift_beyond_length :
  forall (audio out : list fval) (sr : Z) (beat_times : list float)
         (onset_time d : float) (s : Z),
    length out = length audio ->
    onset_offset beat_times onset_time = Ok d ->
    shift_samples_of sr d = Ok s ->
    (0 < s)%Z ->
    (Z.of_nat (length audio) <= s)%Z ->
    shift_onset audio sr beat_times out onset_time = Ok out.
Proof.
  intros audio out sr beat_times onset_time d s Hl Hd Hs Hpos Hn.
  rewrite (shift_onset_moves audio sr beat_times out onset_time d s Hl Hd Hs Hpos).
  cbv zeta. set (k := Z.to_nat s).
  assert (Hk : (length audio <= k)%nat) by (unfold k; lia).
  replace (length audio - k)%nat with 0%nat by lia. f_equal.
  destruct (0 <? d)%float.
  - rewrite firstn_all2 by lia. simpl. apply app_nil_r.
  - rewrite skipn_all2 by lia. reflexivity.
Qed.

(** 600 samples at 22050 Hz, the onset at frame 1 and the beat at frame 3:
    the product is 1023.9999999999999 in binary64 and the shift is 1023
    samples. *)
Lemma shift_beyond_length_witness :
  let onset := nth 0 (hop_times [1%Z] 22050) 0%float in
  let beat_times := hop_times [3%Z] 22050 in
  (exists d, onset_offset beat_times onset = Ok d
             /\ shift_samples_of 22050 d = Ok 1023%Z)
  /\ shift_onset (wave (ramp 600)) 22050 beat_times (zeros 600) onset
     = Ok (zeros 600).
Proof.
  intros onset beat_times.
  eassert (Hd : onset_offset beat_times onset = Ok _) by (vm_compute; reflexivity).
  assert (Hs : shift_samples_of 22050 (nth 0 beat_times 0 - onset)%float
               = Ok 1023%Z) by (vm_compute; reflexivity).
  split; [eexists; split; [exact Hd | vm_compute; reflexivity]|].
  apply (shift_beyond_length (wave (ramp 600)) (zeros 600) 22050 beat_times
                             onset (nth 0 beat_times 0 - onset)%float 1023).
  - vm_compute. reflexivity.
  - vm_compute. reflexivity.
  - exact Hs.
  - lia.
  - vm_compute. discriminate.
Defined.

Lemma shift_onset_empty_grid audio sr out onset_time :
  Py.raises (shift_onset audio sr [] out onset_time).
Proof. eexists. reflexivity. Qed.

(** X5.  A beat in which no beat is found: with an empty beat grid the first
    detected onset makes [np.argmin] raise on the empty array, so
    [_align_to_grid] raises and [sync_to_beat] returns the vocals path. *)
Theorem empty_grid_abandons_sync :
  forall (lib : Librosa) (w : World) (vocals_path beat_url beat_path : string)
         (vocals beat stretched onset_env : list fval) (vocals_sr beat_sr : Z)
         (beat_tempo : fval) (beat_frames onset_frames : list Z)
         (onset_time : float) (onset_times : list float),
    load lib vocals_path = Ok (vocals, vocals_sr) ->
    _download_beat w beat_url = Ok beat_path ->
    load lib beat_path = Ok (beat, beat_sr) ->
    beat_track lib beat beat_sr = Ok (beat_tempo, beat_frames) ->
    frames_to_time lib beat_frames beat_sr = Ok [] ->
    _time_stretch_to_tempo lib vocals vocals_sr beat_tempo = Ok stretched ->
    onset_strength lib stretched vocals_sr = Ok onset_env ->
    onset_detect lib onset_env vocals_sr = Ok onset_frames ->
    frames_to_time lib onset_frames vocals_sr = Ok (onset_time :: onset_times) ->
    _align_to_grid lib stretched vocals_sr []
    = Raise (ValueError "attempt to get argmin of an empty sequence")
    /\ sync_to_beat lib w vocals_path beat_url = Ok vocals_path.
Proof.
  intros lib w vocals_path beat_url beat_path vocals beat stretched onset_env
         vocals_sr beat_sr beat_tempo beat_frames onset_frames onset_time
         onset_times Hv Hdl Hb Hbt Hft Hst Hos Hod Hot.
  assert (R : _align_to_grid lib stretched vocals_sr []
              = Raise (ValueError "attempt to get argmin of an empty sequence")).
  { unfold _align_to_grid. rewrite Hos. simpl. rewrite Hod. simpl.
    rewrite Hot. reflexivity. }
  split; [exact R|].
  apply sync_body_raises. eexists.
  unfold sync_body. rewrite Hv. simpl. rewrite Hdl. simpl. rewrite Hb. simpl.
  rewrite Hbt. simpl. rewrite Hft. simpl. rewrite Hst. simpl. rewrite R.
  reflexivity.
Qed.

Lemma empty_grid_abandons_sync_witness :
  let lib := librosa_with_beats [1 # 2; -1 # 4; 0; 1 # 8] [] [3%Z] in
  let w := world_with 200 (Arr1 []) 22050 in
  sync_to_beat lib w "vocals.wav" "http://beat" = Ok "vocals.wav"%string.
Proof.
  intros lib w.
  refine (proj2
    (empty_grid_abandons_sync lib w "vocals.wav" "http://beat" "/tmp/beat.mp3"
       (wave [1 # 2; -1 # 4; 0; 1 # 8]) (wave [1 # 2; -1 # 4; 0; 1 # 8])
       (wave [1 # 2; -1 # 4; 0; 1 # 8]) (wave [1 # 2; -1 # 4; 0; 1 # 8])
       22050 22050 (Fin 120) [] [3%Z]
       (Fl.float_of_int (3 * 512) / Fl.float_of_int 22050)%float []
       _ _ _ _ _ _ _ _ _)); reflexivity.
Defined.

End AlignEdges.

(* ------------------------------------------------------------------ *)
(** ** Mastering: more on the limiting stage *)

Module LimitingExtras.

Import Np NpFacts FlFacts Mastering LimitingProofs.

Lemma eqv_mul_one a g : g == 1 -> Fl.eqv (Fin (a * g)) (Fin a).
Proof. intro G. simpl. rewrite G. apply Qmult_1_r. Qed.

(** The peak of a finite array, and the gain the stage takes from it. *)
Lemma limiting_gain_of_peak (l : list Q) :
  l <> [] ->
  exists peak g,
    np_max (np_abs (wave l)) = Ok (Fin peak)
    /\ limiting_gain (Fin peak) = Fin g
    /\ 0 < g /\ g <= 1
    /\ Forall (fun a => Qabs (a * g) <= target_peak) l
    /\ (Forall (fun a => Qabs a <= target_peak) l -> g == 1).
Proof.
  intro Hne.
  destruct (np_max_abs_wave l Hne) as [peak [Hmax [P0 [Hall Hex]]]].
  destruct (Qlt_le_dec 0 peak) as [Hp|Hp].
  - destruct (gain_range peak Hp) as [G0 [G1 [Gp _]]].
    set (g := if Fl.Qltb 1 (target_peak / peak) then 1 else target_peak / peak) in *.
    exists peak, g. split; [exact Hmax|].
    split; [now apply limiting_gain_pos|]. split; [exact G0|]. split; [exact G1|].
    split.
    + eapply Forall_impl; [|exact Hall]. intros a Ha. simpl in Ha.
      rewrite Qabs_Qmult, (Qabs_pos g) by (apply Qlt_le_weak, G0).
      eapply Qle_trans; [|exact Gp]. rewrite (Qmult_comm g peak).
      apply Qmult_le_compat_r; [exact Ha | apply Qlt_le_weak, G0].
    + intro Hq.
      assert (Hpt : peak <= target_peak).
      { apply Exists_exists in Hex. destruct Hex as [a [Ha ->]].
        rewrite Forall_forall in Hq. exact (Hq a Ha). }
      subst g. destruct (Fl.Qltb 1 (target_peak / peak)) eqn:E; [reflexivity|].
      apply Qltb_ge in E. apply Qle_antisym; [exact E|].
      apply Qle_shift_div_l; [exact Hp|]. now rewrite Qmult_1_l.
  - assert (Pz : peak == 0) by (apply Qle_antisym; assumption).
    exists peak, 1. split; [exact Hmax|].
    split; [now apply limiting_gain_silent|].
    split; [reflexivity|]. split; [apply Qle_refl|]. split; [|reflexivity].
    eapply Forall_impl; [|exact Hall]. intros a Ha. simpl in Ha.
    rewrite Qmult_1_r. eapply Qle_trans; [exact Ha|]. rewrite Pz. discriminate.
Qed.

(** What the stage returns on a finite array that is not empty: every
    sample times one gain in (0, 1], the clip changing nothing. *)
Lemma limiting_scales (chans : list (list Q)) :
  concat chans <> [] ->
  exists g,
    0 < g /\ g <= 1
    /\ _apply_limiting (map wave chans)
       = Ok (map wave (map (map (fun a => a * g)) chans))
    /\ Forall (Forall (fun a => Qabs (a * g) <= target_peak)) chans
    /\ (Forall (Forall (fun a => Qabs a <= target_peak)) chans -> g == 1).
Proof.
  intro Hne.
  destruct (limiting_gain_of_peak (concat chans) Hne)
    as [peak [g [Hmax [Hg [G0 [G1 [Hb Hq]]]]]]].
  rewrite <- concat_wave in Hmax.
  assert (Hb' : Forall (Forall (fun a => Qabs (a * g) <= target_peak)) chans).
  { apply Forall_forall. intros ch Hch. apply Forall_forall. intros a Ha.
    rewrite Forall_forall in Hb. apply Hb. apply in_concat. eauto. }
  exists g. split; [exact G0|]. split; [exact G1|]. split; [|split].
  - rewrite (limiting_finite chans peak Hmax g Hg). f_equal.
    rewrite map_map. apply map_ext_in. intros ch Hch.
    unfold wave. rewrite map_map. apply map_ext_in. intros a Ha.
    apply clip_small. rewrite Forall_forall in Hb'.
    specialize (Hb' ch Hch). rewrite Forall_forall in Hb'. exact (Hb' a Ha).
  - exact Hb'.
  - intro H. apply Hq. apply Forall_concat. exact H.
Qed.

Lemma Forall2_map_r {A B} (R : A -> B -> Prop) (f : A -> B) (l : list A) :
  Forall (fun a => R a (f a)) l -> Forall2 R l (map f l).
Proof. induction 1; simpl; constructor; assumption. Qed.

(** X7.  Shape and the empty array.  [_apply_limiting] raises exactly on an
    array without samples, where [np.max] has no value; on every other
    array, whatever its samples, it returns an array of the same shape. *)
Theorem apply_limiting_shape :
  forall audio : list (list fval),
    (concat audio = [] /\ Py.raises (_apply_limiting audio))
    \/ (concat audio <> []
        /\ exists out, _apply_limiting audio = Ok out
                       /\ map (@length fval) out = map (@length fval) audio).
Proof.
  intro audio. unfold _apply_limiting.
  destruct (concat audio) as [|x t] eqn:E.
  - left. split; [reflexivity|]. eexists. reflexivity.
  - right. split; [discriminate|]. simpl. eexists. split; [reflexivity|].
    rewrite !map_map. apply map_ext. intro ch. now rewrite !length_map.
Qed.

(** X8.  A finite signal whose samples are all within [target_peak] passes
    the limiting stage unchanged: the gain [min(target_peak / peak, 1.0)]
    is 1 (also at peak zero), so a quiet signal is never raised to the
    target. *)
Theorem limiting_passes_quiet :
  forall chans : list (list Q),
    concat chans <> [] ->
    Forall (Forall (fun a => Qabs a <= target_peak)) chans ->
    exists out,
      _apply_limiting (map wave chans) = Ok out
      /\ Forall2 (Forall2 (fun a o => Fl.eqv o (Fin a))) chans out.
Proof.
  intros chans Hne Hq.
  destruct (limiting_scales chans Hne) as [g [_ [_ [Hout [_ Hg]]]]].
  specialize (Hg Hq). eexists. split; [exact Hout|].
  rewrite map_map. apply Forall2_map_r. apply Forall_forall. intros ch _.
  unfold wave. rewrite map_map. apply Forall2_map_r.
  apply Forall_forall. intros a _. now apply eqv_mul_one.
Qed.

Lemma limiting_passes_quiet_witness :
  exists out,
    _apply_limiting (map wave [[1 # 2; -1 # 4]; [0; 1 # 8]]) = Ok out
    /\ Forall2 (Forall2 (fun a o => Fl.eqv o (Fin a)))
               [[1 # 2; -1 # 4]; [0; 1 # 8]] out.
Proof.
  apply (limiting_passes_quiet [[1 # 2; -1 # 4]; [0; 1 # 8]]).
  - discriminate.
  - repeat constructor; discriminate.
Defined.

(** X9.  Limiting is idempotent on finite arrays: a second pass over the
    output of the first changes no sample. *)
Theorem limiting_idempotent :
  forall chans : list (list Q),
    concat chans <> [] ->
    exists out1 out2,
      _apply_limiting (map wave chans) = Ok out1
      /\ _apply_limiting out1 = Ok out2
      /\ Forall2 (Forall2 Fl.eqv) out2 out1.
Proof.
  intros chans Hne.
  destruct (limiting_scales chans Hne) as [g [_ [_ [Hout [Hb _]]]]].
  set (chans1 := map (map (fun a => a * g)) chans) in *.
  assert (Hne1 : concat chans1 <> []).
  { intro E. apply Hne.
    assert (L : length (concat chans1) = length (concat chans)).
    { unfold chans1. clear. induction chans as [|ch chans IH]; [reflexivity|].
      simpl. rewrite !length_app, length_map. now rewrite IH. }
    rewrite E in L. simpl in L. destruct (concat chans); [reflexivity|discriminate L]. }
  assert (Hq1 : Forall (Forall (fun a => Qabs a <= target_peak)) chans1).
  { unfold chans1. apply Forall_map. eapply Forall_impl; [|exact Hb].
    intros ch Hch. apply Forall_map. exact Hch. }
  destruct (limiting_scales chans1 Hne1) as [g1 [_ [_ [Hout1 [_ Hg1]]]]].
  specialize (Hg1 Hq1).
  exists (map wave chans1). eexists. split; [exact Hout|]. split; [exact Hout1|].
  clear - Hg1. induction chans1 as [|ch chans1 IH]; simpl; constructor; [|exact IH].
  clear IH. induction ch as [|a ch IH]; simpl; constructor; [|exact IH].
  now apply eqv_mul_one.
Qed.

Lemma limiting_idempotent_witness :
  exists out1 out2,
    _apply_limiting (map wave [[2; -1]; [1 # 4; 0]]) = Ok out1
    /\ _apply_limiting out1 = Ok out2
    /\ Forall2 (Forall2 Fl.eqv) out2 out1.
Proof.
  apply (limiting_idempotent [[2; -1]; [1 # 4; 0]]). discriminate.
Defined.

End LimitingExtras.

(* ------------------------------------------------------------------ *)
(** ** Mastering: more on the compressor *)

Module CompressionExtras.

Import Np NpFacts FlFacts Mastering CompressionProofs.

Lemma raw_gain_ratio thr a :
  valid_threshold thr -> ratio_gain (raw_gain thr (Fin a)).
Proof.
  destruct thr as [t| | |]; simpl valid_threshold; intro Ht; try contradiction.
  - rewrite raw_gain_fin. destruct (Fl.Qltb t (Qabs a)) eqn:E.
    + apply Qltb_lt in E.
      assert (HA : 0 < Qabs a) by (eapply Qle_lt_trans; eassumption).
      unfold Fl.div.
      assert (Z : Fl.is_zero (Qabs a) = false).
      { apply is_zero_false. intro Q0. rewrite Q0 in HA. discriminate HA. }
      rewrite Z. cbn [ratio_gain]. split.
      * apply Qle_shift_div_l; [exact HA|].
        unfold Qdiv. change (/ 4) with (1 # 4). lra.
      * apply Qle_shift_div_r; [exact HA|].
        unfold Qdiv. change (/ 4) with (1 # 4). lra.
    + simpl. split; [discriminate | apply Qle_refl].
  - rewrite raw_gain_nan. simpl. split; [discriminate | apply Qle_refl].
Qed.

Lemma smooth_ratio prev g :
  match prev with None => True | Some p => ratio_gain p end ->
  ratio_gain g -> ratio_gain (smooth prev g).
Proof.
  destruct prev as [p|]; simpl; [|trivial].
  destruct p as [p| | |], g as [g| | |]; simpl; try tauto.
  intros [P0 P1] [G0 G1].
  destruct (Fl.Qltb g p) eqn:E; simpl.
  - apply Qltb_lt in E. split; lra.
  - apply Qltb_ge in E. split; lra.
Qed.

Lemma gain_from_ratio thr : valid_threshold thr ->
  forall audio prev,
    match prev with None => True | Some p => ratio_gain p end ->
    Forall ratio_gain (gain_from thr prev (wave audio)).
Proof.
  intros Ht. induction audio as [|a rest IH]; intros prev Hp; simpl.
  - constructor.
  - assert (U : ratio_gain (smooth prev (raw_gain thr (Fin a)))).
    { apply smooth_ratio; [exact Hp | now apply raw_gain_ratio]. }
    constructor; [exact U | apply IH; exact U].
Qed.

Lemma map2_mul_ratio audio : forall gain,
  length gain = length audio -> Forall ratio_gain gain ->
  Forall2 (fun a o => exists g, 1 # 4 <= g /\ g <= 1 /\ o = Fin (a * g)
                                /\ Qabs a * (1 # 4) <= Qabs (a * g))
          audio (map2 Fl.mul (wave audio) gain).
Proof.
  induction audio as [|a rest IH]; intros gain Hl Hu.
  - constructor.
  - destruct gain as [|g gs]; [discriminate Hl|].
    inversion Hu as [|? ? Hg Hgs]; subst.
    destruct g as [g| | |]; simpl in Hg; try contradiction.
    destruct Hg as [G0 G1].
    change (map2 Fl.mul (wave (a :: rest)) (Fin g :: gs))
      with (Fin (a * g) :: map2 Fl.mul (wave rest) gs).
    constructor.
    + exists g. repeat split; try assumption.
      rewrite Qabs_Qmult, (Qabs_pos g) by lra.
      rewrite (Qmult_comm (Qabs a) (1 # 4)), (Qmult_comm (Qabs a) g).
      apply Qmult_le_compat_r; [exact G0 | apply Qabs_nonneg].
    + apply IH; [simpl in Hl; lia | exact Hgs].
Qed.

(** X10.  The floor of the compressor.  With finite, non-negative RMS frames
    every smoothed gain lies in [1/4, 1]: the raw gain
    [(t + (|a| - t) / 4) / |a|] is at least [1 / ratio], and attack and
    release move between gains of that range.  So no output sample is
    smaller in magnitude than a quarter of its input sample. *)
Theorem compression_floor :
  forall (lib : Librosa) (audio : list Q) (rms0 : list fval)
         (rest : list (list fval)),
    rms lib (wave audio) = Ok (rms0 :: rest) ->
    Forall Fl.nonneg_finite rms0 ->
    exists out,
      _apply_compression lib (wave audio) = Ok out
      /\ Forall2 (fun a o => exists g, 1 # 4 <= g /\ g <= 1 /\ o = Fin (a * g)
                                       /\ Qabs a * (1 # 4) <= Qabs (a * g))
                 audio out.
Proof.
  intros lib audio rms0 rest Hrms Hnn.
  eexists. split; [unfold _apply_compression; rewrite Hrms; reflexivity|].
  apply map2_mul_ratio.
  - rewrite length_gain_from. apply length_map.
  - apply gain_from_ratio; [now apply threshold_valid | exact I].
Qed.

Lemma compression_floor_witness :
  exists out,
    _apply_compression (Fixtures.librosa_with [] [] [Fin (1 # 100)])
                       (wave [1; -1; 1 # 2]) = Ok out
    /\ Forall2 (fun a o => exists g, 1 # 4 <= g /\ g <= 1 /\ o = Fin (a * g)
                                     /\ Qabs a * (1 # 4) <= Qabs (a * g))
               [1; -1; 1 # 2] out.
Proof.
  apply (compression_floor (Fixtures.librosa_with [] [] [Fin (1 # 100)])
                           [1; -1; 1 # 2] [Fin (1 # 100)] []).
  - reflexivity.
  - constructor; [discriminate | constructor].
Defined.

(** a gain that is 1 up to the representation of fractions *)
Lemma smooth_one prev :
  match prev with None => True | Some p => Fl.eqv p (Fin 1) end ->
  Fl.eqv (smooth prev (Fin 1)) (Fin 1).
Proof.
  destruct prev as [[p| | |]|]; simpl; try tauto; [|reflexivity].
  intro Hp. destruct (Fl.Qltb 1 p); simpl; rewrite Hp; reflexivity.
Qed.

Lemma raw_gain_below thr a :
  thr = NaN \/ (exists t, thr = Fin t /\ Qabs a <= t) ->
  raw_gain thr (Fin a) = Fin 1.
Proof.
  intros [->|[t [-> Ha]]]; [reflexivity|].
  rewrite raw_gain_fin. apply Qltb_ge in Ha. now rewrite Ha.
Qed.

Lemma compress_below thr : forall audio prev,
  match prev with None => True | Some p => Fl.eqv p (Fin 1) end ->
  Forall (fun a => thr = NaN \/ (exists t, thr = Fin t /\ Qabs a <= t)) audio ->
  Forall2 (fun a o => Fl.eqv o (Fin a))
          audio (map2 Fl.mul (wave audio) (gain_from thr prev (wave audio))).
Proof.
  induction audio as [|a rest IH]; intros prev Hp Hall.
  - constructor.
  - inversion Hall as [|? ? Ha Hrest]; subst.
    simpl gain_from. rewrite (raw_gain_below thr a Ha).
    assert (S1 := smooth_one prev Hp).
    destruct (smooth prev (Fin 1)) as [s| | |] eqn:Es; simpl in S1; try contradiction.
    change (map2 Fl.mul (wave (a :: rest)) (Fin s :: gain_from thr (Some (Fin s)) (wave rest)))
      with (Fin (a * s) :: map2 Fl.mul (wave rest) (gain_from thr (Some (Fin s)) (wave rest))).
    constructor.
    + simpl. rewrite S1. apply Qmult_1_r.
    + apply IH; [exact S1 | exact Hrest].
Qed.

(** X11.  Below the threshold nothing is compressed.  When no sample exceeds
    [threshold = np.mean(rms) * 1.5] in magnitude, every raw gain is 1, the
    release step leaves it at 1, and the output is the input.  The same
    holds when the threshold is NaN (an empty RMS frame), since every
    comparison with NaN is false. *)
Theorem compression_identity_below :
  forall (lib : Librosa) (audio : list Q) (rms0 : list fval)
         (rest : list (list fval)),
    rms lib (wave audio) = Ok (rms0 :: rest) ->
    let threshold := Fl.mul (np_mean rms0) (Fin (15 # 10)) in
    threshold = NaN
    \/ (exists t, threshold = Fin t /\ Forall (fun a => Qabs a <= t) audio) ->
    exists out,
      _apply_compression lib (wave audio) = Ok out
      /\ Forall2 (fun a o => Fl.eqv o (Fin a)) audio out.
Proof.
  intros lib audio rms0 rest Hrms threshold Hthr.
  eexists. split; [unfold _apply_compression; rewrite Hrms; reflexivity|].
  fold threshold. unfold compress. apply compress_below; [exact I|].
  destruct Hthr as [E|[t [E Hall]]].
  - apply Forall_forall. intros a _. now left.
  - eapply Forall_impl; [|exact Hall]. intros a Ha. right. now exists t.
Qed.

Lemma compression_identity_below_witness :
  exists out,
    _apply_compression (Fixtures.librosa_with [] [] [Fin (1 # 2); Fin (3 # 2)])
                       (wave [1; -3 # 2; 1 # 2]) = Ok out
    /\ Forall2 (fun a o => Fl.eqv o (Fin a)) [1; -3 # 2; 1 # 2] out.
Proof.
  apply (compression_identity_below
           (Fixtures.librosa_with [] [] [Fin (1 # 2); Fin (3 # 2)])
           [1; -3 # 2; 1 # 2] [Fin (1 # 2); Fin (3 # 2)] []).
  - reflexivity.
  - right. eexists. split; [vm_compute; reflexivity|].
    repeat constructor; discriminate.
Defined.

(** X12.  The gain loop is causal.  For a given threshold, output sample [i]
    depends on the input samples up to [i] only: compressing a waveform
    and cutting the result to a prefix is compressing the prefix, whatever
    the samples are (finite or not). *)
Theorem compress_prefix :
  forall (thr : fval) (a b : list fval),
    firstn (length a) (compress thr (a ++ b)) = compress thr a.
Proof.
  intros thr a b. unfold compress. generalize (@None fval).
  induction a as [|x a IH]; intro prev; [reflexivity|].
  simpl. unfold map2 in *. simpl. f_equal. apply IH.
Qed.

End CompressionExtras.

(* ------------------------------------------------------------------ *)
(** ** Mastering: the total gain of the equaliser *)

Module EqExtras.

Import Np NpFacts FlFacts Mastering EqProofs EqTheorems.

Lemma in_band_bounds low high f :
  in_band low high f = true -> inject_Z low <= f /\ f <= inject_Z high.
Proof.
  unfold in_band. intro H. apply andb_true_iff in H. destruct H as [L H].
  split; now apply Qle_bool_iff.
Qed.

Ltac band_facts :=
  repeat match goal with
         | H : in_band _ _ _ = true |- _ => apply in_band_bounds in H
         | H : in_band _ _ _ = false |- _ => clear H
         end.

Ltac scaled_by g :=
  exists g; split; [lra|]; split; [lra|];
  match goal with
  | |- context [re ?c] =>
      destruct c as [[x| | |] [y| | |]]; split;
      cbn [scale re im Fl.mul Fl.eqv];
      first [ring | vm_compute; exact I]
  end.

(** X13.  Whatever the sample rate and the frequency of a bin, the loop over
    the five bands multiplies the bin by one factor between 0.9 and 1.32:
    a bin lies in at most two bands, and the largest product is the one at
    60 Hz, [1.2 * 1.1]. *)
Theorem eq_total_gain_bounds :
  forall (sr : Z) (f : Q) (c : cplx),
    exists g : Q,
      9 # 10 <= g /\ g <= 132 # 100
      /\ Fl.eqv (re (band_gains sr f c)) (Fl.mul (re c) (Fin g))
      /\ Fl.eqv (im (band_gains sr f c)) (Fl.mul (im c) (Fin g)).
Proof.
  intros sr f c. rewrite band_gains_unfold. cbv zeta.
  destruct (in_band 20 60 f) eqn:B1; destruct (in_band 60 250 f) eqn:B2;
    destruct (in_band 250 2000 f) eqn:B3; destruct (in_band 2000 6000 f) eqn:B4;
    destruct (in_band 6000 (sr / 2) f) eqn:B5;
    band_facts;
    try (exfalso; generalize dependent (inject_Z (sr / 2)); intros;
         unfold inject_Z in *; lra).
  all: clear.
  - scaled_by (132 # 100).
  - scaled_by (12 # 10).
  - scaled_by (99 # 100).
  - scaled_by (11 # 10).
  - scaled_by (99 # 100).
  - scaled_by (9 # 10).
  - scaled_by (1155 # 1000).
  - scaled_by (11 # 10).
  - scaled_by (105 # 100).
  - scaled_by 1.
Qed.

End EqExtras.

(* ------------------------------------------------------------------ *)
(** ** Mastering: the chain and its callers *)

Module ChainExtras.

Import Np NpFacts FlFacts Mastering Fixtures.

Lemma roll_map {A B} (f : A -> B) (l : list A) (k : nat) :
  roll (map f l) k = map f (roll l k).
Proof.
  unfold roll. rewrite length_map, map_app, skipn_map, firstn_map. reflexivity.
Qed.

(** What the chain returns when it returns: the EQ output [e], not empty,
    limited sample by sample, beside the same rotated by [delay_samples]. *)
Lemma chain_shape lib audio sr out :
  processing_chain lib audio sr = Ok out ->
  exists left, left <> [] /\ out = [left; roll left delay_samples].
Proof.
  unfold processing_chain. intro H.
  apply PyFacts.bind_ok in H. destruct H as [c [_ H]].
  apply PyFacts.bind_ok in H. destruct H as [e [_ H]].
  unfold _apply_limiting in H.
  apply PyFacts.bind_ok in H. destruct H as [peak [Hmax H]].
  apply PyFacts.Ok_inj in H. subst out.
  unfold _enhance_stereo, vstack in *. cbv zeta in *.
  exists (map clip (map (fun a => Fl.mul a (limiting_gain peak)) e)).
  split; [|cbn [map]; rewrite !roll_map; reflexivity].
  destruct e as [|x e]; [discriminate Hmax | discriminate].
Qed.

Lemma metrics_of_stereo lib (l r : list fval) sr :
  l <> [] -> sr <> 0%Z ->
  exists m, _calculate_audio_metrics lib [l; r] sr = Ok m
            /\ duration m = inject_Z 2 / inject_Z sr
            /\ sample_rate m = sr.
Proof.
  intros Hl Hsr. unfold _calculate_audio_metrics, py_truediv.
  destruct l as [|x l]; [congruence|].
  apply Z.eqb_neq in Hsr. cbn [concat app np_abs map np_max Py.bind length].
  change (Z.of_nat 2) with 2%Z. rewrite Hsr. cbn [Py.bind].
  eexists. split; [reflexivity|]. split; reflexivity.
Qed.

(** X14.  The mastered signal is always two channels of one length, the
    right channel being the left one rotated by [int(0.02 * 44100) = 882]
    samples, and it is never empty: on an empty EQ output the limiting
    stage raises instead. *)
Theorem chain_stereo_shape :
  forall (lib : Librosa) (audio : list fval) (sr : Z) (out : list (list fval)),
    processing_chain lib audio sr = Ok out ->
    exists left right,
      out = [left; right]
      /\ left <> []
      /\ right = roll left 882
      /\ length right = length left.
Proof.
  intros lib audio sr out H.
  destruct (chain_shape lib audio sr out H) as [left [Hne ->]].
  exists left, (roll left delay_samples).
  split; [reflexivity|]. split; [exact Hne|].
  split; [reflexivity | apply length_roll].
Qed.

Lemma chain_stereo_shape_witness :
  exists out left right,
    processing_chain (librosa_with [] [] [Fin 0]) (zeros 4) 22050 = Ok out
    /\ out = [left; right] /\ left <> []
    /\ right = roll left 882 /\ length right = length left.
Proof.
  eassert (H : processing_chain (librosa_with [] [] [Fin 0]) (zeros 4) 22050 = Ok _)
    by (vm_compute; reflexivity).
  destruct (chain_stereo_shape _ _ _ _ H) as [left [right P]].
  eexists. exists left, right. split; [exact H | exact P].
Defined.

(** X15.  The duration in the mastering metadata counts channels, not
    samples.  [len(audio)] of the (2, samples) array is 2, so for every
    output of the chain and every sample rate other than zero the metrics
    are computed without an exception and their duration is [2 / sr],
    whatever the length of the track. *)
Theorem metrics_duration_is_two_over_sr :
  forall (lib : Librosa) (audio : list fval) (sr : Z) (out : list (list fval)),
    processing_chain lib audio sr = Ok out ->
    sr <> 0%Z ->
    exists m,
      _calculate_audio_metrics lib out sr = Ok m
      /\ duration m = inject_Z 2 / inject_Z sr
      /\ sample_rate m = sr.
Proof.
  intros lib audio sr out H Hsr.
  destruct (chain_shape lib audio sr out H) as [left [Hne ->]].
  now apply metrics_of_stereo.
Qed.

Lemma metrics_duration_is_two_over_sr_witness :
  exists out m,
    processing_chain (librosa_with [] [] [Fin 0]) (zeros 4) 22050 = Ok out
    /\ _calculate_audio_metrics (librosa_with [] [] [Fin 0]) out 22050 = Ok m
    /\ duration m = inject_Z 2 / inject_Z 22050
    /\ sample_rate m = 22050%Z.
Proof.
  eassert (H : processing_chain (librosa_with [] [] [Fin 0]) (zeros 4) 22050 = Ok _)
    by (vm_compute; reflexivity).
  destruct (metrics_duration_is_two_over_sr _ _ _ _ H) as [m P]; [discriminate|].
  eexists. exists m. split; [exact H | exact P].
Defined.

(** X16.  The two paths of [master_audio].  It returns the path it was given
    unless every step went through: the file was read, the chain returned
    its two channels, the directory was made, the transposed array was
    written to [final_track.wav], the metrics were computed and the
    metadata was dumped; only then does it return the mastered path. *)
Theorem master_audio_paths :
  forall (lib : Librosa) (w : World) (audio_path : string),
    master_audio lib w audio_path = Ok audio_path
    \/ exists input sr left m,
         sf_read w audio_path = Ok (input, sr)
         /\ processing_chain lib (to_mono input) sr
            = Ok [left; roll left delay_samples]
         /\ mkdir w "data/audio/mastered" = Ok tt
         /\ sf_write w mastered_path
                     (Arr2 (transpose [left; roll left delay_samples])) sr = Ok tt
         /\ _calculate_audio_metrics lib [left; roll left delay_samples] sr = Ok m
         /\ dump_audio_metrics w "data/audio/mastered/mastering_metadata.json" m
            = Ok tt
         /\ master_audio lib w audio_path = Ok mastered_path.
Proof.
  intros lib w audio_path. unfold master_audio, master_body.
  destruct (sf_read w audio_path) as [[input sr]|e] eqn:Hread;
    [|left; reflexivity].
  cbn [Py.bind].
  destruct (processing_chain lib (to_mono input) sr) as [out|e] eqn:Hchain;
    [|left; reflexivity].
  destruct (chain_shape _ _ _ _ Hchain) as [left0 [_ ->]].
  cbn [Py.bind].
  destruct (mkdir w "data/audio/mastered") as [[]|e] eqn:Hmk;
    [|left; reflexivity].
  cbn [Py.bind]. unfold write_stereo. cbn [length Nat.eqb].
  destruct (sf_write w mastered_path
              (Arr2 (transpose [left0; roll left0 delay_samples])) sr)
    as [[]|e] eqn:Hwrite; [|left; reflexivity].
  cbn [Py.bind].
  destruct (_calculate_audio_metrics lib [left0; roll left0 delay_samples] sr)
    as [m|e] eqn:Hmet; [|left; reflexivity].
  cbn [Py.bind].
  destruct (dump_audio_metrics w "data/audio/mastered/mastering_metadata.json" m)
    as [[]|e] eqn:Hdump; [|left; reflexivity].
  right. exists input, sr, left0, m. repeat split; assumption || reflexivity.
Qed.

End ChainExtras.

(* ------------------------------------------------------------------ *)
(** ** Sanitizer: what [_clean_string] returns *)

Module CleanStringProofs.

Import CleanString.

Lemma chars_app a b : chars (a ++ b) = chars a ++ chars b.
Proof. induction a as [|c a IH]; simpl; [reflexivity | now rewrite IH]. Qed.

Lemma length_app_string a b :
  String.length (a ++ b) = (String.length a + String.length b)%nat.
Proof. induction a as [|c a IH]; simpl; [reflexivity | now rewrite IH]. Qed.

Lemma length_drop n : forall s, (String.length (drop n s) <= String.length s)%nat.
Proof.
  induction n as [|n IH]; intros [|c t]; simpl; try lia.
  specialize (IH t). lia.
Qed.

Lemma length_lower s : String.length (lower s) = String.length s.
Proof. induction s as [|c t IH]; simpl; [reflexivity | now rewrite IH]. Qed.

Lemma sub_from_skip m : forall s k, sub_from m k s = sub_from m 0 (drop k s).
Proof.
  induction s as [|c t IH]; intros [|k]; try reflexivity.
  simpl. apply IH.
Qed.

(** The scan, one match at a time. *)
Lemma re_sub_cons m c t :
  re_sub m (String c t)
  = match m (String c t) with
    | Some (n, r) => (r ++ re_sub m (drop (Nat.pred n) t))%string
    | None => String c (re_sub m t)
    end.
Proof.
  unfold re_sub. simpl. destruct (m (String c t)) as [[n r]|]; [|reflexivity].
  now rewrite sub_from_skip.
Qed.

Lemma sub_from_forall (P Q : ascii -> Prop) m :
  (forall c t, m (String c t) = None -> P c -> Q c) ->
  (forall s n r, Forall P (chars s) -> m s = Some (n, r) -> Forall Q (chars r)) ->
  forall s skip, Forall P (chars s) -> Forall Q (chars (sub_from m skip s)).
Proof.
  intros Hn Hs. induction s as [|c t IH]; intros skip HP; [constructor|].
  assert (Hc : P c) by (inversion HP; assumption).
  assert (Ht : Forall P (chars t)) by (inversion HP; assumption).
  simpl. destruct skip as [|k]; [|now apply IH].
  destruct (m (String c t)) as [[n r]|] eqn:E.
  - rewrite chars_app. apply Forall_app. split; [exact (Hs _ _ _ HP E) | now apply IH].
  - simpl. constructor; [now apply (Hn c t E) | now apply IH].
Qed.

Lemma sub_from_length m :
  (forall s n r, m s = Some (n, r) -> (String.length r <= 1)%nat) ->
  forall s skip, (String.length (sub_from m skip s) <= String.length s)%nat.
Proof.
  intros Hr. induction s as [|c t IH]; intro skip; simpl; [lia|].
  destruct skip as [|k]; [|specialize (IH k); lia].
  destruct (m (String c t)) as [[n r]|] eqn:E.
  - rewrite length_app_string. specialize (Hr _ _ _ E).
    specialize (IH (Nat.pred n)). lia.
  - simpl. specialize (IH 0%nat). lia.
Qed.

Lemma replaced_by_length r m s n r' :
  (String.length r <= 1)%nat ->
  replaced_by r m s = Some (n, r') -> (String.length r' <= 1)%nat.
Proof.
  unfold replaced_by. intros Hr H. destruct (m s); [|discriminate].
  inversion H; subst. exact Hr.
Qed.

Lemma repeated_length s n r :
  repeated s = Some (n, r) -> (String.length r <= 1)%nat.
Proof.
  unfold repeated. destruct s as [|c t]; [discriminate|].
  destruct (is_punct c); [|discriminate].
  destruct (run (Ascii.eqb c) t); [discriminate|].
  intro H. inversion H; subst. simpl. lia.
Qed.

Lemma repeated_some c t n r :
  repeated (String c t) = Some (n, r) ->
  is_punct c = true /\ r = String c EmptyString
  /\ exists k, run (Ascii.eqb c) t = S k /\ n = S (S k).
Proof.
  unfold repeated. destruct (is_punct c); [|discriminate].
  destruct (run (Ascii.eqb c) t) as [|k] eqn:R; [discriminate|].
  intro H. inversion H; subst. split; [reflexivity|]. split; [reflexivity|].
  exists k. split; reflexivity.
Qed.

Lemma repeated_none c b t :
  repeated (String c (String b t)) = None -> same_punct c b = false.
Proof.
  unfold repeated, same_punct. destruct (is_punct c); [|reflexivity].
  simpl. destruct (Ascii.eqb c b); [discriminate | reflexivity].
Qed.

Lemma forall_drop (P : ascii -> Prop) n : forall s,
  Forall P (chars s) -> Forall P (chars (drop n s)).
Proof.
  induction n as [|n IH]; intros [|c t] H; simpl; try assumption.
  apply IH. now inversion H.
Qed.

Lemma forall_rstrip (P : ascii -> Prop) s :
  Forall P (chars s) -> Forall P (chars (rstrip s)).
Proof.
  induction s as [|c t IH]; intro H; simpl; [constructor|].
  inversion H as [|? ? Hc Ht]; subst. specialize (IH Ht).
  destruct (rstrip t) as [|b r].
  - destruct (is_space c); simpl; [constructor | now constructor].
  - simpl. now constructor.
Qed.

Lemma length_rstrip s : (String.length (rstrip s) <= String.length s)%nat.
Proof.
  induction s as [|c t IH]; simpl; [lia|].
  destruct (rstrip t) as [|b r].
  - destruct (is_space c); simpl; lia.
  - simpl in *. lia.
Qed.

Lemma kept_nonspace c :
  kept c = true -> is_space c = false -> clean_char c = true.
Proof.
  unfold kept, clean_char. intros K E. rewrite E in K.
  destruct (is_lower c), (is_digit c), (is_punct c), (Ascii.eqb c " ");
    simpl in *; try reflexivity; exact K.
Qed.

Lemma punct_not_blank c : is_punct c = true -> Ascii.eqb c " " = false.
Proof.
  intro H. destruct (Ascii.eqb_spec c " "%char) as [->|N]; [discriminate H|reflexivity].
Qed.

Lemma nonspace_not_blank c : is_space c = false -> Ascii.eqb c " " = false.
Proof.
  intro H. destruct (Ascii.eqb_spec c " "%char) as [->|N]; [discriminate H|reflexivity].
Qed.

(** the text before the blanks are collapsed *)
Lemma clean_string_cons c t :
  exists u,
    (String.length u <= String.length (String c t))%nat
    /\ Forall (fun x => kept x = true) (chars u)
    /\ _clean_string (String c t)
       = re_sub repeated (strip (re_sub (replaced_by " " spaces) u)).
Proof.
  eexists. split; [|split; [|reflexivity]].
  - unfold re_sub.
    eapply Nat.le_trans; [apply sub_from_length|].
    { intros s n r. apply replaced_by_length. simpl. lia. }
    eapply Nat.le_trans; [apply sub_from_length|].
    { intros s n r. apply replaced_by_length. simpl. lia. }
    eapply Nat.le_trans; [apply sub_from_length|].
    { intros s n r. apply replaced_by_length. simpl. lia. }
    eapply Nat.le_trans; [apply sub_from_length|].
    { intros s n r. apply replaced_by_length. simpl. lia. }
    rewrite length_lower. lia.
  - unfold re_sub at 1.
    apply (sub_from_forall (fun _ => True)).
    + intros x s. unfold replaced_by, special.
      destruct (kept x); [reflexivity | discriminate].
    + intros s n r _. unfold replaced_by. destruct (special s); [|discriminate].
      intro H. inversion H; subst. constructor.
    + apply Forall_forall. intros; exact I.
Qed.

Lemma collapsed_chars u :
  Forall (fun x => kept x = true) (chars u) ->
  Forall (fun x => clean_char x = true)
         (chars (re_sub (replaced_by " " spaces) u)).
Proof.
  apply sub_from_forall.
  - intros c t. unfold replaced_by, spaces. simpl.
    destruct (is_space c) eqn:E; [discriminate|].
    intros _ K. now apply kept_nonspace.
  - intros s n r _. unfold replaced_by. destruct (spaces s); [|discriminate].
    intro H. inversion H; subst. repeat constructor.
Qed.

(** X17.  The alphabet of a cleaned text.  Whatever the input, every
    character [_clean_string] returns is a lower-case letter a-z, a digit,
    a blank, one of [. , ! ?], a quote or a hyphen: no upper case, no
    bracket, no ampersand, no slash, no newline and no other whitespace. *)
Theorem clean_string_alphabet :
  forall text : string,
    Forall (fun c => clean_char c = true) (chars (_clean_string text)).
Proof.
  intros [|c t]; [constructor|].
  destruct (clean_string_cons c t) as [u [_ [K ->]]].
  unfold re_sub at 1. apply (sub_from_forall (fun c => clean_char c = true)).
  - intros; assumption.
  - intros [|x s] n r HP H; [discriminate H|].
    apply repeated_some in H. destruct H as [_ [-> _]].
    simpl. constructor; [now inversion HP | constructor].
  - unfold strip, lstrip. apply forall_rstrip, forall_drop.
    now apply collapsed_chars.
Qed.

(** X18.  A cleaned text is never longer than the text it came from: every
    substitution replaces a match of at least one character by at most
    one. *)
Theorem clean_string_not_longer :
  forall text : string,
    (String.length (_clean_string text) <= String.length text)%nat.
Proof.
  intros [|c t]; [simpl; lia|].
  destruct (clean_string_cons c t) as [u [L [_ ->]]].
  eapply Nat.le_trans; [apply sub_from_length, repeated_length|].
  unfold strip, lstrip.
  eapply Nat.le_trans; [apply length_rstrip|].
  eapply Nat.le_trans; [apply length_drop|].
  eapply Nat.le_trans; [|exact L].
  apply sub_from_length. intros s n r. apply replaced_by_length. simpl. lia.
Qed.

Lemma no_pair_cons r a t :
  no_pair r (String a t)
  <-> match first_char t with Some b => r a b = false | None => True end
      /\ no_pair r t.
Proof. destruct t; simpl; tauto. Qed.

Lemma no_pair_drop r n : forall s, no_pair r s -> no_pair r (drop n s).
Proof.
  induction n as [|n IH]; intros [|c t] H; simpl; try assumption.
  apply IH. apply no_pair_cons in H. tauto.
Qed.

Lemma run_max p : forall s,
  match first_char (drop (run p s) s) with
  | Some b => p b = false
  | None => True
  end.
Proof.
  induction s as [|c t IH]; simpl; [exact I|].
  destruct (p c) eqn:E; simpl; [exact IH | exact E].
Qed.

Lemma first_char_repeated s :
  first_char (re_sub repeated s) = first_char s.
Proof.
  destruct s as [|c t]; [reflexivity|]. rewrite re_sub_cons.
  destruct (repeated (String c t)) as [[n r]|] eqn:E; [|reflexivity].
  apply repeated_some in E. destruct E as [_ [-> _]]. reflexivity.
Qed.

Lemma repeated_step c t :
  exists rest,
    re_sub repeated (String c t) = String c (re_sub repeated rest)
    /\ (String.length rest <= String.length t)%nat
    /\ match first_char rest with
       | Some b => same_punct c b = false
       | None => True
       end
    /\ (rest = t \/ (is_punct c = true /\ exists k, rest = drop (S k) t
                                                   /\ run (Ascii.eqb c) t = S k)).
Proof.
  rewrite re_sub_cons.
  destruct (repeated (String c t)) as [[n r]|] eqn:E.
  - apply repeated_some in E. destruct E as [Pc [-> [k [R ->]]]].
    exists (drop (S k) t). split; [reflexivity|]. split; [apply length_drop|].
    split.
    + assert (M := run_max (Ascii.eqb c) t). rewrite R in M.
      destruct (first_char (drop (S k) t)); [|exact I].
      unfold same_punct. now rewrite M, andb_false_r.
    + right. split; [exact Pc|]. exists k. split; [reflexivity | exact R].
  - exists t. split; [reflexivity|]. split; [lia|]. split; [|now left].
    destruct t as [|b t']; [exact I|]. simpl. now apply repeated_none in E.
Qed.

Lemma repeated_no_pair : forall n s,
  (String.length s <= n)%nat -> no_pair same_punct (re_sub repeated s).
Proof.
  induction n as [|n IH]; intros [|c t] Hl; try exact I; simpl in Hl; [lia|].
  destruct (repeated_step c t) as [rest [-> [L [F _]]]].
  apply no_pair_cons. split.
  - now rewrite first_char_repeated.
  - apply IH. lia.
Qed.

(** X19.  No repeated punctuation.  In a cleaned text no full stop, comma,
    exclamation mark or question mark is followed by the same mark. *)
Theorem clean_string_no_repeated_punctuation :
  forall text : string, no_pair same_punct (_clean_string text).
Proof.
  intros [|c t]; [exact I|].
  destruct (clean_string_cons c t) as [u [_ [_ ->]]].
  eapply repeated_no_pair. apply Nat.le_refl.
Qed.

Lemma repeated_keeps_blanks : forall n s,
  (String.length s <= n)%nat ->
  no_pair both_blank s -> no_pair both_blank (re_sub repeated s).
Proof.
  induction n as [|n IH]; intros [|c t] Hl H; try exact I; simpl in Hl; [lia|].
  destruct (repeated_step c t) as [rest [-> [L [_ D]]]].
  apply no_pair_cons in H. destruct H as [H1 H2].
  apply no_pair_cons. rewrite first_char_repeated. split.
  - destruct D as [->|[Pc _]]; [exact H1|].
    destruct (first_char rest); [|exact I].
    unfold both_blank. now rewrite (punct_not_blank c Pc).
  - apply IH; [lia|].
    destruct D as [->|[_ [k [-> _]]]]; [exact H2 | now apply no_pair_drop].
Qed.

Lemma last_char_cons c t :
  last_char (String c t)
  = match first_char t with None => Some c | Some _ => last_char t end.
Proof. destruct t; reflexivity. Qed.

Lemma last_char_drop n : forall s,
  first_char (drop n s) <> None -> last_char (drop n s) = last_char s.
Proof.
  induction n as [|n IH]; intros [|c t] H; try reflexivity.
  cbn [drop] in *. rewrite (IH t H). rewrite last_char_cons.
  destruct t as [|b t']; [|reflexivity].
  exfalso. apply H. now destruct n.
Qed.

Lemma run_all c : forall t,
  first_char (drop (run (Ascii.eqb c) t) t) = None ->
  last_char (String c t) = Some c.
Proof.
  induction t as [|b t IH]; intro H; [reflexivity|].
  simpl in H. destruct (Ascii.eqb_spec c b) as [<-|N]; [|discriminate H].
  simpl in H. specialize (IH H). rewrite last_char_cons. simpl.
  exact IH.
Qed.

Lemma last_char_repeated : forall n s,
  (String.length s <= n)%nat -> last_char (re_sub repeated s) = last_char s.
Proof.
  induction n as [|n IH]; intros [|c t] Hl; try reflexivity; simpl in Hl; [lia|].
  destruct (repeated_step c t) as [rest [-> [L [_ D]]]].
  rewrite !last_char_cons, first_char_repeated.
  destruct D as [->|[_ [k [-> R]]]].
  - destruct (first_char t) eqn:F; [|reflexivity]. apply IH. lia.
  - destruct (first_char (drop (S k) t)) eqn:F.
    + rewrite IH by lia.
      rewrite last_char_drop by (rewrite F; discriminate).
      destruct t; [discriminate F | reflexivity].
    + rewrite <- R in F. apply run_all in F. rewrite last_char_cons in F.
      exact (eq_sym F).
Qed.

Lemma first_char_collapsed s :
  first_char (re_sub (replaced_by " " spaces) s)
  = match first_char s with
    | Some b => if is_space b then Some " "%char else Some b
    | None => None
    end.
Proof.
  destruct s as [|c t]; [reflexivity|]. rewrite re_sub_cons.
  unfold replaced_by, spaces. simpl.
  destruct (is_space c); reflexivity.
Qed.

Lemma collapsed_no_pair : forall n s,
  (String.length s <= n)%nat ->
  no_pair both_blank (re_sub (replaced_by " " spaces) s).
Proof.
  induction n as [|n IH]; intros [|c t] Hl; try exact I; simpl in Hl; [lia|].
  rewrite re_sub_cons. unfold replaced_by, spaces. simpl run.
  destruct (is_space c) eqn:E.
  - cbn [Nat.pred append]. apply no_pair_cons. split.
    + rewrite first_char_collapsed.
      assert (M := run_max is_space t).
      destruct (first_char (drop (run is_space t) t)) as [b|]; [|exact I].
      rewrite M. unfold both_blank. now rewrite (nonspace_not_blank b M), andb_false_r.
    + apply IH. assert (L := length_drop (run is_space t) t). lia.
  - apply no_pair_cons. split.
    + destruct (first_char _); [|exact I].
      unfold both_blank. now rewrite (nonspace_not_blank c E).
    + apply IH. lia.
Qed.

Lemma rstrip_first s :
  first_char (rstrip s) = None \/ first_char (rstrip s) = first_char s.
Proof.
  destruct s as [|c t]; [now left|]. simpl.
  destruct (rstrip t); [destruct (is_space c)|]; simpl; auto.
Qed.

Lemma rstrip_no_pair r s : no_pair r s -> no_pair r (rstrip s).
Proof.
  induction s as [|c t IH]; intro H; [exact I|].
  apply no_pair_cons in H. destruct H as [H1 H2]. specialize (IH H2).
  simpl. destruct (rstrip t) as [|b u] eqn:E.
  - destruct (is_space c); simpl; auto.
  - apply no_pair_cons. split; [|exact IH].
    destruct (rstrip_first t) as [F|F]; rewrite E in F; [discriminate F|].
    simpl in F. rewrite <- F in H1. exact H1.
Qed.

Lemma rstrip_last s :
  match last_char (rstrip s) with
  | Some c => is_space c = false
  | None => True
  end.
Proof.
  induction s as [|c t IH]; [exact I|]. simpl.
  destruct (rstrip t) as [|b u] eqn:E.
  - destruct (is_space c) eqn:S; simpl; [exact I | exact S].
  - rewrite last_char_cons. simpl. exact IH.
Qed.

(** X20.  Blanks in a cleaned text.  A cleaned text does not begin with a
    blank, does not end with one, and has no two blanks side by side; the
    last substitution, which drops punctuation marks, brings none of these
    back. *)
Theorem clean_string_blanks :
  forall text : string,
    first_char (_clean_string text) <> Some " "%char
    /\ last_char (_clean_string text) <> Some " "%char
    /\ no_pair both_blank (_clean_string text).
Proof.
  intros [|c t]; [repeat split; discriminate|].
  destruct (clean_string_cons c t) as [u [_ [_ ->]]].
  set (v := re_sub (replaced_by " " spaces) u).
  assert (Hv : no_pair both_blank v) by (eapply collapsed_no_pair, Nat.le_refl).
  split; [|split].
  - rewrite first_char_repeated. unfold strip.
    destruct (rstrip_first (lstrip v)) as [F|F]; rewrite F; [discriminate|].
    unfold lstrip. assert (M := run_max is_space v).
    destruct (first_char (drop (run is_space v) v)) as [b|]; [|discriminate].
    intro E. inversion E; subst. discriminate M.
  - rewrite (last_char_repeated _ _ (Nat.le_refl _)). unfold strip.
    assert (L := rstrip_last (lstrip v)).
    destruct (last_char (rstrip (lstrip v))) as [b|]; [|discriminate].
    intro E. inversion E; subst. discriminate L.
  - apply (repeated_keeps_blanks _ _ (Nat.le_refl _)).
    unfold strip, lstrip. now apply rstrip_no_pair, no_pair_drop.
Qed.

End CleanStringProofs.

(* ------------------------------------------------------------------ *)
(** ** The endpoint and its audio stages *)

Module MainTheorems.

Import Np Mastering Main Fixtures.

Lemma sync_body_path lib w v u p :
  BeatSync.sync_body lib w v u = Ok p -> p = BeatSync.output_path.
Proof.
  unfold BeatSync.sync_body. intro H.
  repeat (apply PyFacts.bind_ok in H;
          let x := fresh "x" in
          destruct H as [x [_ H]];
          lazymatch type of x with
          | prod _ _ => destruct x
          | _ => idtac
          end;
          cbv beta iota in H).
  now inversion H.
Qed.

Lemma sync_to_beat_paths lib w v u :
  exists p, BeatSync.sync_to_beat lib w v u = Ok p
            /\ (p = v \/ p = BeatSync.output_path).
Proof.
  unfold BeatSync.sync_to_beat.
  destruct (BeatSync.sync_body lib w v u) as [p|e] eqn:E.
  - exists p. split; [reflexivity|]. right. now apply (sync_body_path lib w v u).
  - exists v. split; [reflexivity | now left].
Qed.

Lemma master_body_path lib w p q :
  master_body lib w p = Ok q -> q = p \/ q = mastered_path.
Proof.
  unfold master_body. intro H.
  apply PyFacts.bind_ok in H. destruct H as [[audio sr] [_ H]]. cbv beta iota in H.
  apply PyFacts.bind_ok in H. destruct H as [processed [_ H]].
  apply PyFacts.bind_ok in H. destruct H as [u [_ H]].
  destruct (write_stereo w processed sr) as [processed'|e].
  - apply PyFacts.bind_ok in H. destruct H as [m [_ H]].
    apply PyFacts.bind_ok in H. destruct H as [u' [_ H]].
    right. now inversion H.
  - left. now inversion H.
Qed.

Lemma master_audio_either lib w p :
  exists q, master_audio lib w p = Ok q /\ (q = p \/ q = mastered_path).
Proof.
  unfold master_audio. destruct (master_body lib w p) as [q|e] eqn:E.
  - exists q. split; [reflexivity | now apply (master_body_path lib w p)].
  - exists p. split; [reflexivity | now left].
Qed.

(** X23.  The audio stages never fail a request.  Once the six stages from
    scraping to speech have returned, [generate_diss] answers with status
    success and the refined lyrics, whatever the beat download, librosa
    and the files do in stages 7 and 8.  The audio file it names is the
    mastered track, the synced track or the raw speech file; without a
    beat URL (None or the empty string) the synchroniser is not called
    and it is the mastered track or the speech file. *)
Theorem generate_diss_audio_stages :
  forall (Themes Lyrics : Type)
         (scrape_reddit : string -> outcome Sanitizer.content)
         (save_json : string -> Sanitizer.cleaned_data -> result unit)
         (extract_themes : Sanitizer.cleaned_data -> outcome Themes)
         (generate_lyrics : Themes -> string -> outcome Lyrics)
         (refine_flow : Lyrics -> Z -> outcome Lyrics)
         (text_to_speech : Lyrics -> outcome string)
         (format_exc : string -> string)
         (lib : Librosa) (w : World)
         (url style : string) (beat_url : option string) (flow_complexity : Z)
         (content : Sanitizer.content) (cleaned : Sanitizer.cleaned_data)
         (themes : Themes) (lyr refined : Lyrics) (speech_file : string),
    scrape_reddit url = Done content ->
    Sanitizer.clean_text CleanString._clean_string save_json content = Ok cleaned ->
    extract_themes cleaned = Done themes ->
    generate_lyrics themes style = Done lyr ->
    refine_flow lyr flow_complexity = Done refined ->
    text_to_speech refined = Done speech_file ->
    exists final,
      generate_diss scrape_reddit save_json extract_themes generate_lyrics
                    refine_flow text_to_speech format_exc lib w
                    url style beat_url flow_complexity
      = Done {| status := "success"; lyrics := refined; audio_file := final |}
      /\ (final = speech_file \/ final = BeatSync.output_path
          \/ final = mastered_path)
      /\ (truthy beat_url = None ->
          final = speech_file \/ final = mastered_path).
Proof.
  intros Themes Lyrics scrape_reddit save_json extract_themes generate_lyrics
         refine_flow text_to_speech format_exc lib w url style beat_url
         flow_complexity content cleaned themes lyr refined speech_file
         H1 H2 H3 H4 H5 H6.
  unfold generate_diss, stages.
  rewrite H1. cbn [bind]. rewrite H2. cbn [call bind].
  rewrite H3. cbn [bind]. rewrite H4. cbn [bind]. rewrite H5. cbn [bind].
  rewrite H6. cbn [bind].
  destruct (truthy beat_url) as [beat|] eqn:T.
  - destruct (sync_to_beat_paths lib w speech_file beat) as [p [-> Hp]].
    cbn [call bind].
    destruct (master_audio_either lib w p) as [q [-> Hq]]. cbn [call bind].
    exists q. split; [reflexivity|]. split; [|discriminate].
    destruct Hq as [-> | ->]; [destruct Hp as [-> | ->]|]; auto.
  - cbn [bind].
    destruct (master_audio_either lib w speech_file) as [q [-> Hq]].
    cbn [call bind].
    exists q. split; [reflexivity|].
    destruct Hq as [-> | ->]; split; auto.
Qed.

Lemma generate_diss_audio_stages_witness :
  let post := {| Sanitizer.title := "T"; Sanitizer.selftext := "B";
                 Sanitizer.post_author := "u"; Sanitizer.subreddit := "r";
                 Sanitizer.comments := [] |}%string in
  exists final,
    generate_diss (fun _ => Done post) (fun _ _ => Ok tt)
                  (fun _ => Done tt) (fun _ _ => Done "la"%string)
                  (fun l _ => Done l) (fun _ => Done "data/audio/raw_vocals.wav"%string)
                  (fun m => m)
                  (librosa_with [1 # 2] [] [Fin 0])
                  (world_with 404 (Arr1 (zeros 4)) 22050)
                  "http://reddit" "Playful" (Some "http://beat"%string) 5
    = Done {| status := "success"; lyrics := "la"%string; audio_file := final |}
    /\ (final = "data/audio/raw_vocals.wav"%string
        \/ final = BeatSync.output_path \/ final = mastered_path)
    /\ (truthy (Some "http://beat"%string) = None ->
        final = "data/audio/raw_vocals.wav"%string \/ final = mastered_path).
Proof.
  intro post.
  apply (generate_diss_audio_stages unit string
           (fun _ => Done post) (fun _ _ => Ok tt)
           (fun _ => Done tt) (fun _ _ => Done "la"%string)
           (fun l _ => Done l) (fun _ => Done "data/audio/raw_vocals.wav"%string)
           (fun m => m)
           (librosa_with [1 # 2] [] [Fin 0])
           (world_with 404 (Arr1 (zeros 4)) 22050)
           "http://reddit" "Playful" (Some "http://beat"%string) 5
           post
           (Sanitizer.build_cleaned CleanString._clean_string post)
           tt "la"%string "la"%string "data/audio/raw_vocals.wav"%string);
    reflexivity.
Defined.

End MainTheorems.

Module MainSteps.

Import Main CleanString.

Lemma lower_app a b : lower (a ++ b) = (lower a ++ lower b)%string.
Proof. induction a as [|c a IH]; simpl; [reflexivity | now rewrite IH]. Qed.

(** the keywords the handler looks for before it looks for [master] and
    [audio] *)
Lemma earlier_keywords (m : string) :
  Forall (fun k => contains k m = false)
         ["asyncpraw"; "reddit"; "sanitizer"; "theme"; "lyrics"; "flow";
          "speech"; "tts"; "beat"; "sync"]%string ->
  error_step ("failed to generate audio: " ++ m) = "audio_mastering"%string.
Proof.
  intro H.
  repeat match goal with
         | H : Forall _ (_ :: _) |- _ =>
             let H1 := fresh "K" in
             apply Forall_cons_iff in H; destruct H as [H1 H]
         end.
  unfold error_step.
  change (contains "asyncpraw" ("failed to generate audio: " ++ m))
    with (contains "asyncpraw" m).
  change (contains "reddit" ("failed to generate audio: " ++ m))
    with (contains "reddit" m).
  change (contains "sanitizer" ("failed to generate audio: " ++ m))
    with (contains "sanitizer" m).
  change (contains "theme" ("failed to generate audio: " ++ m))
    with (contains "theme" m).
  change (contains "lyrics" ("failed to generate audio: " ++ m))
    with (contains "lyrics" m).
  change (contains "flow" ("failed to generate audio: " ++ m))
    with (contains "flow" m).
  change (contains "speech" ("failed to generate audio: " ++ m))
    with (contains "speech" m).
  change (contains "tts" ("failed to generate audio: " ++ m))
    with (contains "tts" m).
  change (contains "beat" ("failed to generate audio: " ++ m))
    with (contains "beat" m).
  change (contains "sync" ("failed to generate audio: " ++ m))
    with (contains "sync" m).
  change (contains "audio" ("failed to generate audio: " ++ m)) with true.
  rewrite K, K0, K1, K2, K3, K4, K5, K6, K7, K8, orb_true_r.
  reflexivity.
Qed.

(** X24.  A failure of the speech stage is reported under another step.
    [text_to_speech] wraps what goes wrong in
    [RuntimeError("Failed to generate audio: ...")].  When the rest of
    that message names none of the keywords the handler looks for first,
    [generate_diss] raises an [HTTPException] with status 500 whose
    report carries the message and the step [audio_mastering], although
    the stage that failed is stage 6. *)
Theorem speech_failure_step :
  forall (Themes Lyrics : Type)
         (scrape_reddit : string -> outcome Sanitizer.content)
         (save_json : string -> Sanitizer.cleaned_data -> result unit)
         (extract_themes : Sanitizer.cleaned_data -> outcome Themes)
         (generate_lyrics : Themes -> string -> outcome Lyrics)
         (refine_flow : Lyrics -> Z -> outcome Lyrics)
         (text_to_speech : Lyrics -> outcome string)
         (format_exc : string -> string)
         (lib : Librosa) (w : World)
         (url style : string) (beat_url : option string) (flow_complexity : Z)
         (content : Sanitizer.content) (cleaned : Sanitizer.cleaned_data)
         (themes : Themes) (lyr refined : Lyrics) (cause : string),
    let msg := ("Failed to generate audio: " ++ cause)%string in
    scrape_reddit url = Done content ->
    Sanitizer.clean_text _clean_string save_json content = Ok cleaned ->
    extract_themes cleaned = Done themes ->
    generate_lyrics themes style = Done lyr ->
    refine_flow lyr flow_complexity = Done refined ->
    text_to_speech refined = Failed (OtherException msg) ->
    Forall (fun k => contains k (lower cause) = false)
           ["asyncpraw"; "reddit"; "sanitizer"; "theme"; "lyrics"; "flow";
            "speech"; "tts"; "beat"; "sync"]%string ->
    generate_diss scrape_reddit save_json extract_themes generate_lyrics
                  refine_flow text_to_speech format_exc lib w
                  url style beat_url flow_complexity
    = Failed (HTTPException 500
                (Report {| error := msg;
                           traceback := format_exc msg;
                           step := "audio_mastering" |})).
Proof.
  intros Themes Lyrics scrape_reddit save_json extract_themes generate_lyrics
         refine_flow text_to_speech format_exc lib w url style beat_url
         flow_complexity content cleaned themes lyr refined cause msg
         H1 H2 H3 H4 H5 H6 HK.
  unfold generate_diss, stages.
  rewrite H1. cbn [bind]. rewrite H2. cbn [call bind].
  rewrite H3. cbn [bind]. rewrite H4. cbn [bind]. rewrite H5. cbn [bind].
  rewrite H6. cbn [bind]. cbv zeta.
  unfold msg at 3. rewrite lower_app.
  change (lower "Failed to generate audio: ")
    with "failed to generate audio: "%string.
  now rewrite (earlier_keywords (lower cause) HK).
Qed.

Lemma speech_failure_step_witness :
  let post := {| Sanitizer.title := "T"; Sanitizer.selftext := "B";
                 Sanitizer.post_author := "u"; Sanitizer.subreddit := "r";
                 Sanitizer.comments := [] |}%string in
  let msg := "Failed to generate audio: Command say returned 1"%string in
  generate_diss (fun _ => Done post) (fun _ _ => Ok tt)
                (fun _ => Done tt) (fun _ _ => Done "la"%string)
                (fun l _ => Done l) (fun _ => Failed (OtherException msg))
                (fun m => m)
                (Fixtures.librosa_with [1 # 2] [] [Fin 0])
                (Fixtures.world_with 404 (Arr1 (Np.zeros 4)) 22050)
                "http://reddit" "Playful" None 5
  = Failed (HTTPException 500
              (Report {| error := msg; traceback := msg;
                         step := "audio_mastering" |})).
Proof.
  intros post msg.
  apply (speech_failure_step unit string
           (fun _ => Done post) (fun _ _ => Ok tt)
           (fun _ => Done tt) (fun _ _ => Done "la"%string)
           (fun l _ => Done l) (fun _ => Failed (OtherException msg))
           (fun m => m)
           (Fixtures.librosa_with [1 # 2] [] [Fin 0])
           (Fixtures.world_with 404 (Arr1 (Np.zeros 4)) 22050)
           "http://reddit" "Playful" None 5
           post
           (Sanitizer.build_cleaned _clean_string post)
           tt "la"%string "la"%string "Command say returned 1");
    try reflexivity.
  repeat constructor.
Defined.

End MainSteps.

(* ------------------------------------------------------------------ *)
(** ** Sanitizer: the order of equal scores and the file name *)

Module SanitizerExtras.

Import Sanitizer SanitizerProofs.

Lemma filter_map_comm {A B} (f : A -> B) (p : B -> bool) (l : list A) :
  filter p (map f l) = map f (filter (fun a => p (f a)) l).
Proof.
  induction l as [|a l IH]; simpl; [reflexivity|].
  destruct (p (f a)); simpl; now rewrite IH.
Qed.

Lemma filter_filter {A} (p q : A -> bool) (l : list A) :
  filter p (filter q l) = filter (fun a => q a && p a) l.
Proof.
  induction l as [|a l IH]; simpl; [reflexivity|].
  destruct (q a); simpl; [destruct (p a); simpl; now rewrite IH | exact IH].
Qed.

(** X21.  The sort is stable.  Among the comments of the cleaned record,
    those of one score stand in the order they had in the input:
    [sorted(..., reverse=True)] does not reverse equal keys. *)
Theorem clean_text_keeps_order_of_equal_scores :
  forall (cs : string -> string) (c : content) (s : Z),
    filter (fun x => (c_score x =? s)%Z) (cd_comments (build_cleaned cs c))
    = map (clean_comment cs)
          (filter (fun k => positive k && (score k =? s)%Z) (comments c)).
Proof.
  intros cs c s. simpl.
  rewrite sorted_desc_stable, kept_comments_filter, filter_map_comm.
  now rewrite filter_filter.
Qed.

Lemma safe_char_spec c : safe_char c = if name_char c then c else "_"%char.
Proof. reflexivity. Qed.

Lemma safe_char_ok c : name_char (safe_char c) = true.
Proof.
  rewrite safe_char_spec. destruct (name_char c) eqn:E; [exact E | reflexivity].
Qed.

Lemma safe_name_ok s :
  String.length (safe_name s) = String.length s
  /\ Forall (fun x => name_char x = true) (CleanString.chars (safe_name s))
  /\ safe_name (safe_name s) = safe_name s.
Proof.
  induction s as [|c t [L [F I]]]; simpl.
  - repeat split. constructor.
  - split; [now rewrite L|]. split; [constructor; [apply safe_char_ok | exact F]|].
    rewrite I. f_equal. rewrite (safe_char_spec (safe_char c)).
    now rewrite safe_char_ok.
Qed.

(** X22.  The file of the cleaned record.  When [clean_text] returns, the
    record it returns has been saved under
    [data/processed/cleaned_<name>.json], where [name] has one character
    for every character of the author, each of them a letter, a digit, an
    underscore or a hyphen: no slash, no dot and no blank of the author's
    name reaches the path. *)
Theorem clean_text_file_name :
  forall (cs : string -> string) (save : string -> cleaned_data -> result unit)
         (c : content) (d : cleaned_data),
    clean_text cs save c = Ok d ->
    exists name,
      save ("data/processed/cleaned_" ++ name ++ ".json")%string d = Ok tt
      /\ d = build_cleaned cs c
      /\ String.length name = String.length (post_author c)
      /\ Forall (fun x => name_char x = true) (CleanString.chars name)
      /\ name_char "/" = false /\ name_char "." = false /\ name_char " " = false.
Proof.
  intros cs save c d H. unfold clean_text in H. cbv zeta in H.
  apply PyFacts.bind_ok in H. destruct H as [[] [Hs H]].
  apply PyFacts.Ok_inj in H. subst d.
  exists (safe_name (post_author c)).
  destruct (safe_name_ok (post_author c)) as [L [F _]].
  repeat split; assumption.
Qed.

Lemma clean_text_file_name_witness :
  let c := {| title := "T"; selftext := "B"; post_author := "../a b";
              subreddit := "r"; comments := [] |}%string in
  let save := fun (path : string) (_ : cleaned_data) =>
                if String.eqb path "data/processed/cleaned____a_b.json"
                then Ok tt else Raise (Exception "another path") in
  let d := build_cleaned CleanString._clean_string c in
  exists name,
    save ("data/processed/cleaned_" ++ name ++ ".json")%string d = Ok tt
    /\ d = build_cleaned CleanString._clean_string c
    /\ String.length name = String.length (post_author c)
    /\ Forall (fun x => name_char x = true) (CleanString.chars name)
    /\ name_char "/" = false /\ name_char "." = false /\ name_char " " = false.
Proof.
  intros c save d.
  exact (clean_text_file_name CleanString._clean_string save c d eq_refl).
Defined.

End SanitizerExtras.

(* ------------------------------------------------------------------ *)
(** ** Beat synchroniser: the track that is written *)

Module SyncExtras.

Import Np NpFacts BeatSync AlignSteps BeatSyncExtras Fixtures.

Lemma align_to_grid_length lib audio sr beat_times out :
  _align_to_grid lib audio sr beat_times = Ok out -> length out = length audio.
Proof.
  unfold _align_to_grid. intro H.
  apply PyFacts.bind_ok in H. destruct H as [env [_ H]].
  apply PyFacts.bind_ok in H. destruct H as [frames [_ H]].
  apply PyFacts.bind_ok in H. destruct H as [times [_ H]].
  apply align_onsets_length in H. rewrite H. apply length_zeros.
Qed.

Lemma mix_audio_ok_length vocals beat mixed :
  _mix_audio vocals beat = Ok mixed ->
  length mixed = Nat.max (length vocals) (length beat).
Proof.
  intro H. destruct vocals as [|v vs], beat as [|b bs]; [discriminate H| | |].
  all: match type of H with
       | _mix_audio ?a ?b = _ =>
           destruct (mix_audio_returns a b) as [out [E L]]; [simpl; lia|];
           rewrite E in H; apply PyFacts.Ok_inj in H; subst out; exact L
       end.
Qed.

(** X6.  The synced track.  When [sync_to_beat] returns another path than
    the one it was given, every step of its body went through and the path
    is [data/audio/synced_track.wav]; the mix written there, at the
    sample rate of the beat, has as many samples as the longer of the
    stretched vocals and the beat, the alignment having kept the length
    of the vocals. *)
Theorem synced_track_length :
  forall (lib : Librosa) (w : World) (vocals_path beat_url p : string),
    sync_to_beat lib w vocals_path beat_url = Ok p ->
    p <> vocals_path ->
    exists vocals vocals_sr beat_path beat beat_sr beat_tempo beat_frames
           beat_times stretched aligned mixed,
      load lib vocals_path = Ok (vocals, vocals_sr)
      /\ _download_beat w beat_url = Ok beat_path
      /\ load lib beat_path = Ok (beat, beat_sr)
      /\ beat_track lib beat beat_sr = Ok (beat_tempo, beat_frames)
      /\ frames_to_time lib beat_frames beat_sr = Ok beat_times
      /\ _time_stretch_to_tempo lib vocals vocals_sr beat_tempo = Ok stretched
      /\ _align_to_grid lib stretched vocals_sr beat_times = Ok aligned
      /\ length aligned = length stretched
      /\ _mix_audio aligned beat = Ok mixed
      /\ length mixed = Nat.max (length stretched) (length beat)
      /\ sf_write w output_path (Arr1 mixed) beat_sr = Ok tt
      /\ p = output_path.
Proof.
  intros lib w vocals_path beat_url p H Hp. unfold sync_to_beat in H.
  destruct (sync_body lib w vocals_path beat_url) as [q|e] eqn:E;
    apply PyFacts.Ok_inj in H; subst p; [|congruence].
  clear Hp. unfold sync_body in E.
  apply PyFacts.bind_ok in E. destruct E as [[vocals vocals_sr] [H1 E]].
  cbv beta iota in E.
  apply PyFacts.bind_ok in E. destruct E as [beat_path [H2 E]].
  apply PyFacts.bind_ok in E. destruct E as [[beat beat_sr] [H3 E]].
  cbv beta iota in E.
  apply PyFacts.bind_ok in E. destruct E as [[beat_tempo beat_frames] [H4 E]].
  cbv beta iota in E.
  apply PyFacts.bind_ok in E. destruct E as [beat_times [H5 E]].
  apply PyFacts.bind_ok in E. destruct E as [stretched [H6 E]].
  apply PyFacts.bind_ok in E. destruct E as [aligned [H7 E]].
  apply PyFacts.bind_ok in E. destruct E as [mixed [H8 E]].
  apply PyFacts.bind_ok in E. destruct E as [[] [H9 E]].
  apply PyFacts.bind_ok in E. destruct E as [d0 [_ E]].
  apply PyFacts.bind_ok in E. destruct E as [d1 [_ E]].
  cbv zeta in E.
  apply PyFacts.bind_ok in E. destruct E as [[] [_ E]].
  apply PyFacts.Ok_inj in E. subst q.
  assert (La := align_to_grid_length _ _ _ _ _ H7).
  assert (Lm := mix_audio_ok_length _ _ _ H8). rewrite La in Lm.
  exists vocals, vocals_sr, beat_path, beat, beat_sr, beat_tempo, beat_frames,
         beat_times, stretched, aligned, mixed.
  repeat split; assumption.
Qed.

Lemma synced_track_length_witness :
  let lib := librosa_with [1 # 2; -1 # 4; 0; 1 # 8] [] [Fin 0] in
  let w := world_with 200 (Arr1 []) 22050 in
  exists stretched beat mixed,
    _time_stretch_to_tempo lib (wave [1 # 2; -1 # 4; 0; 1 # 8]) 22050 (Fin 120)
    = Ok stretched
    /\ load lib "/tmp/beat.mp3" = Ok (beat, 22050%Z)
    /\ length mixed = Nat.max (length stretched) (length beat)
    /\ sf_write w output_path (Arr1 mixed) 22050 = Ok tt
    /\ sync_to_beat lib w "vocals.wav" "http://beat" = Ok output_path.
Proof.
  intros lib w.
  assert (H : sync_to_beat lib w "vocals.wav" "http://beat" = Ok output_path)
    by (vm_compute; reflexivity).
  destruct (synced_track_length lib w "vocals.wav" "http://beat" output_path H)
    as [vocals [vsr [bp [beat [bsr [bt [bf [bts [st [al [mx
        [H1 [H2 [H3 [H4 [H5 [H6 [H7 [H8 [H9 [H10 [H11 _]]]]]]]]]]]]]]]]]]]]]].
  { discriminate. }
  apply PyFacts.Ok_inj in H1. inversion H1; subst vocals vsr.
  apply PyFacts.Ok_inj in H2. subst bp.
  assert (E3 := H3). apply PyFacts.Ok_inj in E3. inversion E3; subst bsr.
  apply PyFacts.Ok_inj in H4. inversion H4; subst bt bf.
  exists st, beat, mx. repeat split; assumption.
Defined.

End SyncExtras.

Module CleanStringExamples.

Import CleanString.

(** The substitutions at work: a URL goes up to the next whitespace and
    takes a closing bracket with it, a bracket left open loses only the
    bracket, an entity becomes a blank, and only a mark repeated at once is
    collapsed. *)
Example clean_string_examples :
  (_clean_string "Test [Post] with http://example.com URLs" = "test with urls"
   /\ _clean_string "A comment with [markdown](http://test.com)" = "a comment with"
   /\ _clean_string "!@#$%^&*()_+ Test Title" = "! test title"
   /\ _clean_string "a&ampx;b &#12; &#; &; & amp;" = "a b amp"
   /\ _clean_string "wwwx www http httpx" = "www http"
   /\ _clean_string "a.,.,b..!!??" = "a.,.,b.!?"
   /\ _clean_string "ht(x)tp://a" = "httpa"
   /\ _clean_string "httpa" = EmptyString)%string.
Proof. repeat split; vm_compute; reflexivity. Qed.

End CleanStringExamples.

(* ------------------------------------------------------------------ *)
(** ** Mastering: the ceiling of the whole chain *)

Module ChainBound.

Import Np NpFacts FlFacts Mastering LimitingProofs LimitingExtras ChainExtras.
Import Fixtures.

Lemma stereo_wave (e : list Q) :
  _enhance_stereo (wave e) = map wave [e; roll e delay_samples].
Proof.
  unfold _enhance_stereo, vstack. cbn [map]. unfold wave.
  now rewrite roll_map.
Qed.

(** X25.  The ceiling holds for the whole chain.  When the equaliser
    returns a finite waveform, the chain raises if that waveform is empty,
    and otherwise returns two channels as long as it in which no sample
    exceeds [target_peak] in magnitude, be the signal loud, quiet or
    silent. *)
Theorem chain_output_bounded :
  forall (lib : Librosa) (audio compressed : list fval) (sr : Z) (e : list Q),
    _apply_compression lib audio = Ok compressed ->
    _apply_eq lib compressed sr = Ok (wave e) ->
    (e = [] /\ Py.raises (processing_chain lib audio sr))
    \/ exists out,
         processing_chain lib audio sr = Ok out
         /\ Forall (Forall (Fl.bounded target_peak)) out
         /\ map (@length fval) out = [length e; length e].
Proof.
  intros lib audio compressed sr e Hc He.
  unfold processing_chain. rewrite Hc. cbn [Py.bind]. rewrite He. cbn [Py.bind].
  rewrite stereo_wave.
  destruct e as [|x e].
  - left. split; [reflexivity|]. eexists. reflexivity.
  - right.
    destruct (limiting_scales [x :: e; roll (x :: e) delay_samples])
      as [g [_ [_ [Hout [Hb _]]]]]; [discriminate|].
    eexists. split; [exact Hout|]. split.
    + apply Forall_map. apply Forall_map.
      eapply Forall_impl; [|exact Hb]. intros ch Hch.
      unfold wave. apply Forall_map. apply Forall_map.
      eapply Forall_impl; [|exact Hch]. intros a Ha. exact Ha.
    + cbn [map]. unfold wave.
      rewrite ?length_map, ?length_roll. cbn [length].
      rewrite ?length_map. reflexivity.
Qed.

Lemma chain_output_bounded_witness :
  let lib := librosa_with [] [] [Fin (1 # 10)] in
  exists out,
    processing_chain lib (wave [1; -2; 1 # 2; 0]) 22050 = Ok out
    /\ Forall (Forall (Fl.bounded target_peak)) out
    /\ map (@length fval) out = [4; 4]%nat.
Proof.
  intro lib.
  set (c := compress (Fin (15 # 100)) (wave [1; -2; 1 # 2; 0])).
  set (e := map (fun v => match v with Fin q => q | _ => 0 end) c).
  destruct (chain_output_bounded lib (wave [1; -2; 1 # 2; 0]) c 22050 e)
    as [[E _]|H].
  - vm_compute. reflexivity.
  - vm_compute. reflexivity.
  - discriminate E.
  - exact H.
Defined.

End ChainBound.
